(** * dangodev/canvas: the matrix library and the manual projection

    A shallow embedding of [src/lib/mat4.ts] (create, perspective, rotate,
    translate) and of the [Cube] class of [src/cubes.ts] (project, draw),
    together with the properties the specification states about them.

    JavaScript numbers are IEEE-754 doubles and a [Float32Array] rounds what
    it stores to single precision.  Two readings of the same source are
    given:

    - [Module Ideal]: numbers are real numbers and every operation is exact.
      This is the arithmetic in which the specification writes its formulas
      (depth range, additivity of translations, Rodrigues form).  Rounding,
      overflow and NaN have no counterpart there, and a quotient by zero is
      Rocq's total division, so a statement that depends on the value of a
      quotient assumes its divisor is not zero.
    - [Module IEEE]: numbers are [spec_float] values with the binary64
      operations of [SpecFloat], and a store into a [Float32Array] rounds to
      binary32.  This is the reading used where the specification speaks
      about the values themselves: what the library returns on degenerate
      inputs (division by zero, NaN propagation) and whether a stored
      number is exactly the one given. *)

From Stdlib Require Import Reals Lra Lia List ZArith Bool RNsatz.
From Stdlib Require Import Floats.SpecFloat.
Import ListNotations.

(** ** Typed arrays

    A [Float32Array] is a sequence of numbers with a fixed length.  A write
    past the end is ignored by JavaScript; [store] does the same. *)

Section TypedArray.
Context {num : Type}.

Fixpoint store (a : list num) (i : nat) (v : num) : list num :=
  match a, i with
  | [], _ => []
  | _ :: t, O => v :: t
  | h :: t, S j => h :: store t j v
  end.
End TypedArray.

Module Ideal.

Local Open Scope R_scope.

(** [type Vec3 = [number, number, number]] *)
Definition Vec3 : Type := R * R * R.

(** A [Float32Array] over exact numbers: the store keeps the value. *)
Definition Float32Array : Type := list R.

(** [a[i]].  Every matrix the library builds or accepts has 16 elements, and
    the theorems below assume that length, so the default is never read
    (JavaScript would read [undefined] there). *)
Notation "a .[ i ]" := (nth i a 0) (at level 1, format "a .[ i ]").

(** The [far] argument of [perspective] has type [number | null], and the
    code compares it with [null] and with [Infinity]. *)
Inductive FarBound : Type :=
| Null : FarBound
| Infinity : FarBound
| Finite (far : R) : FarBound.

(** [Math.hypot(x, y, z)] *)
Definition Math_hypot (x y z : R) : R := sqrt (x * x + y * y + z * z).

(** *** src/lib/mat4.ts *)

Definition create : Float32Array :=
  [ 1; 0; 0; 0;
    0; 1; 0; 0;
    0; 0; 1; 0;
    0; 0; 0; 1 ].

Definition perspective (fovy aspect near : R) (far : FarBound)
  : Float32Array :=
  let f := 1 / tan (fovy / 2) in
  let mat4 :=
    [ f / aspect; 0; 0; 0;
      0; f; 0; 0;
      0; 0; 0; -1;
      0; 0; 0; 0 ] in
  match far with
  | Finite far =>
      let nf := 1 / (near - far) in
      let mat4 := store mat4 10 ((far + near) * nf) in
      store mat4 14 (2 * far * near * nf)
  | Null | Infinity =>
      let mat4 := store mat4 10 (-1) in
      store mat4 14 (-2 * near)
  end.

Definition rotate (a : Float32Array) (rad : R) (axis : Vec3)
  : Float32Array :=
  let '(x, y, z) := axis in
  let len := 1 / Math_hypot x y z in
  let x := x * len in
  let y := y * len in
  let z := z * len in
  let s := sin rad in
  let c := cos rad in
  let t := 1 - c in
  let a00 := a.[0] in let a01 := a.[1] in
  let a02 := a.[2] in let a03 := a.[3] in
  let a10 := a.[4] in let a11 := a.[5] in
  let a12 := a.[6] in let a13 := a.[7] in
  let a20 := a.[8] in let a21 := a.[9] in
  let a22 := a.[10] in let a23 := a.[11] in
  let b00 := x * x * t + c in
  let b01 := y * x * t + z * s in
  let b02 := z * x * t - y * s in
  let b10 := x * y * t - z * s in
  let b11 := y * y * t + c in
  let b12 := z * y * t + x * s in
  let b20 := x * z * t + y * s in
  let b21 := y * z * t - x * s in
  let b22 := z * z * t + c in
  [ a00*b00+a10*b01+a20*b02; a01*b00+a11*b01+a21*b02;
    a02*b00+a12*b01+a22*b02; a03*b00+a13*b01+a23*b02;
    a00*b10+a10*b11+a20*b12; a01*b10+a11*b11+a21*b12;
    a02*b10+a12*b11+a22*b12; a03*b10+a13*b11+a23*b12;
    a00*b20+a10*b21+a20*b22; a01*b20+a11*b21+a21*b22;
    a02*b20+a12*b21+a22*b22; a03*b20+a13*b21+a23*b22;
    a.[12]; a.[13]; a.[14]; a.[15] ].

Definition translate (a : Float32Array) (v : Vec3) : Float32Array :=
  let '(x, y, z) := v in
  let a00 := a.[0] in let a01 := a.[1] in
  let a02 := a.[2] in let a03 := a.[3] in
  let a10 := a.[4] in let a11 := a.[5] in
  let a12 := a.[6] in let a13 := a.[7] in
  let a20 := a.[8] in let a21 := a.[9] in
  let a22 := a.[10] in let a23 := a.[11] in
  [ a00; a01; a02; a03;
    a10; a11; a12; a13;
    a20; a21; a22; a23;
    a00*x+a10*y+a20*z+a.[12]; a01*x+a11*y+a21*z+a.[13];
    a02*x+a12*y+a22*z+a.[14]; a03*x+a13*y+a23*z+a.[15] ].

(** *** src/cubes.ts

    The page state the [Cube] methods read: the module-level variable
    [FIELD_OF_VIEW] and the client size of the canvas.  [FIELD_OF_VIEW] is
    assigned once, from the width the canvas has when the script loads
    ([initialFieldOfView]); the client size is read again at every call. *)

Record Page : Type := mkPage {
  FIELD_OF_VIEW : R;
  clientWidth : R;
  clientHeight : R
}.


(** The calls [draw] makes on the 2D context, in order. *)
Inductive CanvasCall : Type :=
| beginPath
| moveTo (x y : R)
| lineTo (x y : R)
| stroke.

Record Cube : Type := mkCube {
  x : R;
  y : R;
  z : R;
  radius : R
}.

Definition lines : list (nat * nat) :=
  [ (0, 1); (1, 3); (3, 2); (2, 0); (2, 6); (3, 7);
    (0, 4); (1, 5); (6, 7); (6, 4); (7, 5); (4, 5) ]%nat.

Definition vertices : list Vec3 :=
  [ (-1, -1, -1); (1, -1, -1); (-1, 1, -1); (1, 1, -1);
    (-1, -1, 1); (1, -1, 1); (-1, 1, 1); (1, 1, 1) ].

(** [this.vertices[i]] for an index of [lines] (all are below 8). *)
Definition vertex (i : nat) : Vec3 := nth i vertices (0, 0, 0).

(** [v[k]] for a triple [v] and [k] among 0, 1, 2. *)
Definition coord (v : Vec3) (k : nat) : R :=
  let '(v0, v1, v2) := v in
  match k with
  | O => v0
  | S O => v1
  | _ => v2
  end.

(** The object [project] returns; [px] and [py] are its fields [x] and
    [y] (the names [x] and [y] are those of the cube's position here). *)
Record Projected : Type := mkProjected {
  size : R;
  px : R;
  py : R
}.

Definition project (page : Page) (x y z : R) : Projected :=
  let sizeProjection := FIELD_OF_VIEW page / (FIELD_OF_VIEW page + z) in
  let xProject := x * sizeProjection + clientWidth page / 2 in
  let yProject := y * sizeProjection + clientHeight page / 2 in
  {| size := sizeProjection; px := xProject; py := yProject |}.

(** The body of the [forEach] callback of [draw], for one edge. *)
Definition drawLine (page : Page) (this : Cube) (line : nat * nat)
  : list CanvasCall :=
  let '(lineX, lineY) := line in
  let v1x := x this + radius this * coord (vertex lineX) 0 in
  let v1y := y this + radius this * coord (vertex lineX) 1 in
  let v1z := z this + radius this * coord (vertex lineX) 2 in
  let v2x := x this + radius this * coord (vertex lineY) 0 in
  let v2y := y this + radius this * coord (vertex lineY) 1 in
  let v2z := z this + radius this * coord (vertex lineY) 2 in
  let v1Project := project page v1x v1y v1z in
  let v2Project := project page v2x v2y v2z in
  [ beginPath;
    moveTo (px v1Project) (py v1Project);
    lineTo (px v2Project) (py v2Project);
    stroke ].

Definition draw (page : Page) (this : Cube) : list CanvasCall :=
  if Rlt_dec (z this) (- FIELD_OF_VIEW page + radius this) then []
  else flat_map (drawLine page this) lines.

(** What a sequence of context calls paints: [beginPath] empties the current
    path, [moveTo] starts a subpath at a point, [lineTo] adds the segment
    from the current point to the given one, and [stroke] paints the
    segments of the current path. *)
Definition Segment : Type := (R * R) * (R * R).

Fixpoint painted (path : list Segment) (pen : option (R * R))
  (calls : list CanvasCall) : list Segment :=
  match calls with
  | [] => []
  | beginPath :: rest => painted [] None rest
  | moveTo x y :: rest => painted path (Some (x, y)) rest
  | lineTo x y :: rest =>
      match pen with
      | Some p => painted (path ++ [(p, (x, y))]) (Some (x, y)) rest
      | None => painted path (Some (x, y)) rest
      end
  | stroke :: rest => path ++ painted path pen rest
  end.

Definition segments (calls : list CanvasCall) : list Segment :=
  painted [] None calls.

(** The four calls that paint one segment on its own. *)
Definition strokeSegment (s : Segment) : list CanvasCall :=
  let '((x1, y1), (x2, y2)) := s in
  [ beginPath; moveTo x1 y1; lineTo x2 y2; stroke ].

(** The segment the specification describes for one edge: both endpoints at
    [position + radius * localVertex], each sent through [project]. *)
Definition edgeSegment (page : Page) (this : Cube) (line : nat * nat)
  : Segment :=
  let world (i : nat) :=
    project page (x this + radius this * coord (vertex i) 0)
                 (y this + radius this * coord (vertex i) 1)
                 (z this + radius this * coord (vertex i) 2) in
  let p := world (fst line) in
  let q := world (snd line) in
  ((px p, py p), (px q, py q)).

(** *** The transform the drawing backend applies

    The vertex shader of the scripts computes
    [gl_Position = uProjectionMatrix * ... * aVertexPosition] on a
    column-major [mat4], and the backend divides by the [w] component. *)

Definition Vec4 : Type := R * R * R * R.

Definition transform (m : Float32Array) (v : Vec4) : Vec4 :=
  let '(x, y, z, w) := v in
  ( m.[0] * x + m.[4] * y + m.[8]  * z + m.[12] * w,
    m.[1] * x + m.[5] * y + m.[9]  * z + m.[13] * w,
    m.[2] * x + m.[6] * y + m.[10] * z + m.[14] * w,
    m.[3] * x + m.[7] * y + m.[11] * z + m.[15] * w ).

(** Depth in normalized device coordinates: clip [z] over clip [w]. *)
Definition depth (m : Float32Array) (v : Vec4) : R :=
  let '(_, _, cz, cw) := transform m v in cz / cw.

(** *** The Rodrigues rotation

    For a unit axis [n] and angle [theta], entry (row [i], column [j]) of
    [cos theta * I + sin theta * K + (1 - cos theta) * n n^T], where [K]
    is the cross-product matrix of [n]. *)

Definition crossMatrix (n : Vec3) (i j : nat) : R :=
  let '(nx, ny, nz) := n in
  match i, j with
  | O, S O => - nz
  | O, S (S O) => ny
  | S O, O => nz
  | S O, S (S O) => - nx
  | S (S O), O => - ny
  | S (S O), S O => nx
  | _, _ => 0
  end.

Definition rodrigues (n : Vec3) (theta : R) (i j : nat) : R :=
  cos theta * (if Nat.eqb i j then 1 else 0)
  + sin theta * crossMatrix n i j
  + (1 - cos theta) * (coord n i * coord n j).

Definition normalize (v : Vec3) : Vec3 :=
  let '(x, y, z) := v in
  let l := sqrt (x * x + y * y + z * z) in
  (x / l, y / l, z / l).

(** Normalized device coordinates: the clip coordinates over clip [w]. *)
Definition ndc (m : Float32Array) (v : Vec4) : R * R * R :=
  let '(cx, cy, cz, cw) := transform m v in (cx / cw, cy / cw, cz / cw).

(** *** src/lib/math.ts *)

Definition degToRad (deg : R) : R := deg * PI / 180.

Definition radToDeg (rad : R) : R := rad * 180 / PI.

(** *** src/cubes.ts: the constructor and the frame

    [new Cube()] calls [Math.random()] four times, for [x], [y], [z] and
    [radius] in this order; the four values it gets are arguments here.
    All three coordinates use the client width. *)







(** *** src/rotating-cube/script.js: the matrices of [drawScene] and the
    time keeping of [render]

    [then] and [cubeRotation] are the two variables the frames share
    ([then_] here, as [then] is reserved). *)

Definition projectionMatrix (page : Page) : Float32Array :=
  let fieldOfView := degToRad 45 in
  let aspect := clientWidth page / clientHeight page in
  let zNear := 0.1 in
  let zFar := 100.0 in
  perspective fieldOfView aspect zNear (Finite zFar).

Definition modelViewMatrix (cubeRotation : R) : Float32Array :=
  let modelViewMatrix := create in
  let modelViewMatrix := translate modelViewMatrix (- 0.0, 0.0, -6.0) in
  let modelViewMatrix := rotate modelViewMatrix cubeRotation (0, 0, 1) in
  rotate modelViewMatrix (cubeRotation * 0.7) (0, 1, 0).

Record Animation : Type := mkAnimation {
  then_ : R;
  cubeRotation : R
}.

Definition initialAnimation : Animation :=
  {| then_ := 0; cubeRotation := 0.0 |}.

(** One call of [render(now)]: the model-view matrix handed to the
    backend, and the variables afterwards. *)
Definition renderFrame (state : Animation) (now : R)
  : Float32Array * Animation :=
  let now := now * 0.001 in
  let deltaTime := now - then_ state in
  let drawn := modelViewMatrix (cubeRotation state) in
  (drawn, {| then_ := now; cubeRotation := cubeRotation state + deltaTime |}).

(** The frames for a sequence of timestamps, in order. *)
Fixpoint renderFrames (state : Animation) (timestamps : list R)
  : list Float32Array * Animation :=
  match timestamps with
  | [] => ([], state)
  | now :: later =>
      let '(drawn, state') := renderFrame state now in
      let '(rest, final) := renderFrames state' later in
      (drawn :: rest, final)
  end.

End Ideal.

Module IEEE.

(** A JavaScript number: an IEEE-754 binary64 value. *)
Definition number : Type := spec_float.

Definition NaN : number := S754_nan.
Definition zero (negative : bool) : number := S754_zero negative.
Definition infinity (negative : bool) : number := S754_infinity negative.

Definition add : number -> number -> number := SFadd 53 1024.
Definition sub : number -> number -> number := SFsub 53 1024.
Definition mul : number -> number -> number := SFmul 53 1024.
Definition div : number -> number -> number := SFdiv 53 1024.
Definition neg : number -> number := SFopp.

(** An integer literal of the source text ([0], [1.0], [2]). *)
Definition literal (n : Z) : number := binary_normalize 53 1024 n 0 false.

(** [x === Infinity] *)
Definition isInfinity (x : number) : bool :=
  match x with
  | S754_infinity false => true
  | _ => false
  end.

Definition isFinite (x : number) : bool :=
  match x with
  | S754_zero _ | S754_finite _ _ _ => true
  | S754_infinity _ | S754_nan => false
  end.

(** [x === y] on numbers: NaN equals nothing and the two zeros are equal. *)
Definition strictEquals (x y : number) : bool := SFeqb x y.

(** A finite number in its binary64 representation. *)
Definition finiteDouble (x : number) : bool :=
  isFinite x && valid_binary 53 1024 x.

(** The numbers the literals [1] and [0.1] denote. *)
Definition one : number := S754_finite false 4503599627370496 (-52).
Definition tenth : number := S754_finite false 7205759403792794 (-56).

(** What a [Float32Array] keeps of a number stored in it, read back as a
    number: the nearest binary32 value (ties to even), widened to binary64
    again.  Zeros, infinities and NaN are kept. *)
Definition toBinary32 (x : number) : number :=
  match x with
  | S754_finite s m e => binary_round 24 128 s m e
  | _ => x
  end.

Definition fromBinary32 (x : number) : number :=
  match x with
  | S754_finite s m e => binary_round 53 1024 s m e
  | _ => x
  end.

(** [Math.fround] *)
Definition fround (x : number) : number := fromBinary32 (toBinary32 x).

Definition Vec3 : Type := number * number * number.

Definition Float32Array : Type := list number.

(** [new Float32Array([...])] *)
Definition newFloat32Array (elements : list number) : Float32Array :=
  map fround elements.

(** [a[i]] read as a number: past the end JavaScript reads [undefined],
    which arithmetic and typed-array stores turn into NaN. *)
Definition get (a : Float32Array) (i : nat) : number := nth i a NaN.

(** The functions of [Math] the library calls.  ECMAScript leaves their
    values implementation-approximated, and fixes them at special
    arguments. *)
Record MathLib : Type := mkMathLib {
  Math_tan : number -> number;
  Math_sin : number -> number;
  Math_cos : number -> number;
  Math_hypot : number -> number -> number -> number
}.

(** ECMAScript: [Math.hypot] of arguments that are all [+0] or [-0] is
    [+0], and [Math.tan] of [+0] or [-0] is its argument. *)
Definition hypotOfZeros (M : MathLib) : Prop :=
  forall sx sy sz, Math_hypot M (zero sx) (zero sy) (zero sz) = zero false.

Definition tanOfZero (M : MathLib) : Prop :=
  forall s, Math_tan M (zero s) = zero s.

(** One such library, coarse away from zero: first-order [tan] and [sin],
    constant [cos], and [hypot] as the rounded square root of the rounded
    sum of squares. *)
Definition firstOrderMath : MathLib :=
  {| Math_tan := fun x => x;
     Math_sin := fun x => x;
     Math_cos := fun _ => literal 1;
     Math_hypot := fun x y z =>
       SFsqrt 53 1024 (add (add (mul x x) (mul y y)) (mul z z)) |}.

Section Mat4.
Variable M : MathLib.

Declare Scope js_scope.
Local Notation "x + y" := (add x y) : js_scope.
Local Notation "x - y" := (sub x y) : js_scope.
Local Notation "x * y" := (mul x y) : js_scope.
Local Notation "x / y" := (div x y) : js_scope.
Local Notation "a .[ i ]" := (get a i) (at level 1, format "a .[ i ]")
  : js_scope.
Local Notation "0" := (literal 0) : js_scope.
Local Notation "1" := (literal 1) : js_scope.
Local Notation "2" := (literal 2) : js_scope.
Local Open Scope js_scope.

Definition create : Float32Array :=
  newFloat32Array
    [ 1; 0; 0; 0;
      0; 1; 0; 0;
      0; 0; 1; 0;
      0; 0; 0; 1 ].

Definition perspective (fovy aspect near : number) (far : option number)
  : Float32Array :=
  let f := 1 / Math_tan M (fovy / 2) in
  let mat4 :=
    newFloat32Array
      [ f / aspect; 0; 0; 0;
        0; f; 0; 0;
        0; 0; 0; neg 1;
        0; 0; 0; 0 ] in
  let infinite :=
    let mat4 := store mat4 10 (fround (neg 1)) in
    store mat4 14 (fround (neg 2 * near)) in
  match far with
  | Some far =>
      if isInfinity far then infinite
      else
        let nf := 1 / (near - far) in
        let mat4 := store mat4 10 (fround ((far + near) * nf)) in
        store mat4 14 (fround (2 * far * near * nf))
  | None => infinite
  end.

Definition rotate (a : Float32Array) (rad : number) (axis : Vec3)
  : Float32Array :=
  let '(x, y, z) := axis in
  let len := 1 / Math_hypot M x y z in
  let x := x * len in
  let y := y * len in
  let z := z * len in
  let s := Math_sin M rad in
  let c := Math_cos M rad in
  let t := 1 - c in
  let a00 := a.[0] in let a01 := a.[1] in
  let a02 := a.[2] in let a03 := a.[3] in
  let a10 := a.[4] in let a11 := a.[5] in
  let a12 := a.[6] in let a13 := a.[7] in
  let a20 := a.[8] in let a21 := a.[9] in
  let a22 := a.[10] in let a23 := a.[11] in
  let b00 := x * x * t + c in
  let b01 := y * x * t + z * s in
  let b02 := z * x * t - y * s in
  let b10 := x * y * t - z * s in
  let b11 := y * y * t + c in
  let b12 := z * y * t + x * s in
  let b20 := x * z * t + y * s in
  let b21 := y * z * t - x * s in
  let b22 := z * z * t + c in
  newFloat32Array
    [ a00*b00+a10*b01+a20*b02; a01*b00+a11*b01+a21*b02;
      a02*b00+a12*b01+a22*b02; a03*b00+a13*b01+a23*b02;
      a00*b10+a10*b11+a20*b12; a01*b10+a11*b11+a21*b12;
      a02*b10+a12*b11+a22*b12; a03*b10+a13*b11+a23*b12;
      a00*b20+a10*b21+a20*b22; a01*b20+a11*b21+a21*b22;
      a02*b20+a12*b21+a22*b22; a03*b20+a13*b21+a23*b22;
      a.[12]; a.[13]; a.[14]; a.[15] ].

Definition translate (a : Float32Array) (v : Vec3) : Float32Array :=
  let '(x, y, z) := v in
  let a00 := a.[0] in let a01 := a.[1] in
  let a02 := a.[2] in let a03 := a.[3] in
  let a10 := a.[4] in let a11 := a.[5] in
  let a12 := a.[6] in let a13 := a.[7] in
  let a20 := a.[8] in let a21 := a.[9] in
  let a22 := a.[10] in let a23 := a.[11] in
  newFloat32Array
    [ a00; a01; a02; a03;
      a10; a11; a12; a13;
      a20; a21; a22; a23;
      a00*x+a10*y+a20*z+a.[12]; a01*x+a11*y+a21*z+a.[13];
      a02*x+a12*y+a22*z+a.[14]; a03*x+a13*y+a23*z+a.[15] ].
End Mat4.

End IEEE.

(** ** Integers: [isPowerOf2] of src/lib/math.ts

    [&] converts both operands with ToInt32.  The argument is an
    integer-valued number below 2^53 in absolute value (an image width),
    so that [n - 1] is exact; it is a [Z] here. *)

Module Int32.

Local Open Scope Z_scope.

(** ToInt32 of an integer: its residue modulo 2^32 in [-2^31, 2^31). *)
Definition ToInt32 (n : Z) : Z := (n + 2 ^ 31) mod 2 ^ 32 - 2 ^ 31.

Definition isPowerOf2 (n : Z) : bool :=
  Z.land (ToInt32 n) (ToInt32 (n - 1)) =? 0.

End Int32.

(** * Properties over exact arithmetic *)

Import Ideal.
Local Open Scope R_scope.

(** A matrix handed to the library has 16 elements; this names them. *)
Ltac elements m H :=
  do 16 (destruct m as [|? m]; [discriminate H|]);
  destruct m; [clear H|discriminate H].

(** Equality of lists and tuples, one component at a time. *)
Ltac componentwise :=
  repeat match goal with
         | |- cons _ _ = cons _ _ => apply (f_equal2 cons)
         | |- pair _ _ = pair _ _ => apply (f_equal2 pair)
         end;
  try reflexivity.

Example translate_identity_5 :
  translate create (5, 0, 0) =
    [ 1; 0; 0; 0;  0; 1; 0; 0;  0; 0; 1; 0;  5; 0; 0; 1 ].
Proof. unfold translate, create; simpl; componentwise; ring. Qed.

Example perspective_null_far :
  perspective (PI / 2) 2 1 Null =
    [ 1 / tan (PI / 2 / 2) / 2; 0; 0; 0;
      0; 1 / tan (PI / 2 / 2); 0; 0;
      0; 0; -1; -1;
      0; 0; -2 * 1; 0 ].
Proof. reflexivity. Qed.

Example segments_of_one_stroke :
  segments (strokeSegment ((1, 2), (3, 4)) ++ strokeSegment ((5, 6), (7, 8)))
  = [ ((1, 2), (3, 4)); ((5, 6), (7, 8)) ].
Proof. reflexivity. Qed.

Lemma one_lt_PI : 1 < PI.
Proof. pose proof PI2_1. lra. Qed.

(** C1.  For fovy in (0, pi), aspect > 0, near > 0: with a finite far,
    [perspective] returns the 16 elements
    f/aspect 0 0 0 | 0 f 0 0 | 0 0 (far+near)*nf -1 | 0 0 2*far*near*nf 0
    where f = 1/tan(fovy/2) and nf = 1/(near-far); with far null or
    Infinity, element 10 is -1 and element 14 is -2*near and the other
    elements are the same. *)
Theorem perspective_elements (fovy aspect near : R) :
  0 < fovy < PI -> 0 < aspect -> 0 < near ->
  let f := 1 / tan (fovy / 2) in
  (forall far : R,
     perspective fovy aspect near (Finite far) =
       [ f / aspect; 0; 0; 0;
         0; f; 0; 0;
         0; 0; (far + near) * (1 / (near - far)); -1;
         0; 0; 2 * far * near * (1 / (near - far)); 0 ])
  /\ (forall far : FarBound,
        far = Null \/ far = Infinity ->
        perspective fovy aspect near far =
          [ f / aspect; 0; 0; 0;
            0; f; 0; 0;
            0; 0; -1; -1;
            0; 0; -2 * near; 0 ]).
Proof.
  intros _ _ _ f; split.
  - intros far; reflexivity.
  - intros far [-> | ->]; reflexivity.
Qed.

Lemma perspective_elements_witness :
  perspective 1 1 1 (Finite 2) =
    [ 1 / tan (1 / 2) / 1; 0; 0; 0;
      0; 1 / tan (1 / 2); 0; 0;
      0; 0; (2 + 1) * (1 / (1 - 2)); -1;
      0; 0; 2 * 2 * 1 * (1 / (1 - 2)); 0 ].
Proof.
  pose proof one_lt_PI as HPI.
  apply (perspective_elements 1 1 1); lra.
Defined.

(** ** The manual projection *)

(** C2.  With field-of-view constant F and F + z nonzero, [project]
    returns size F/(F+z), x*size + width/2 and y*size + height/2.  For
    F = 400 and a cube at the origin with radius 10, vertex (-1,-1,-1) is
    the world point (-10,-10,-10); its size is 400/390 (about 1.0256), its
    screen x in a viewport 800 wide is about 389.74, and its screen y is
    the same number in a viewport 800 high and -10*size + 300 in one 600
    high. *)
Theorem project_formula (page : Page) (x y z : R) :
  FIELD_OF_VIEW page + z <> 0 ->
  let F := FIELD_OF_VIEW page in
  (size (project page x y z) = F / (F + z)
   /\ px (project page x y z) = x * (F / (F + z)) + clientWidth page / 2
   /\ py (project page x y z) = y * (F / (F + z)) + clientHeight page / 2)
  /\ (let cube := mkCube 0 0 0 10 in
      let wx := Ideal.x cube + radius cube * coord (vertex 0) 0 in
      let wy := Ideal.y cube + radius cube * coord (vertex 0) 1 in
      let wz := Ideal.z cube + radius cube * coord (vertex 0) 2 in
      let wide := project (mkPage 400 800 600) wx wy wz in
      let square := project (mkPage 400 800 800) wx wy wz in
      (wx, wy, wz) = (-10, -10, -10)
      /\ size wide = 400 / 390
      /\ Rabs (size wide - 1.0256) < 0.0001
      /\ px wide = -10 * (400 / 390) + 400
      /\ Rabs (px wide - 389.74) < 0.01
      /\ py wide = -10 * (400 / 390) + 300
      /\ Rabs (py square - 389.74) < 0.01).
Proof.
  intros _ F; split.
  - repeat split; reflexivity.
  - cbv zeta; unfold project, vertex, coord; simpl.
    replace (0 + 10 * -1) with (-10) by ring.
    replace (400 + -10) with 390 by ring.
    repeat split; try (apply Rabs_def1); lra.
Qed.

Lemma project_formula_witness :
  size (project (mkPage 400 800 600) (-10) (-10) (-10)) = 400 / (400 + -10).
Proof.
  apply (project_formula (mkPage 400 800 600) (-10) (-10) (-10)).
  simpl; lra.
Defined.

Lemma painted_drawLine (page : Page) (c : Cube) (line : nat * nat)
  (rest : list CanvasCall) (path : list Segment) (pen : option (R * R)) :
  exists path' pen',
    painted path pen (drawLine page c line ++ rest) =
      edgeSegment page c line :: painted path' pen' rest.
Proof.
  destruct line as [lineX lineY]; unfold drawLine, edgeSegment; simpl.
  eexists; eexists; reflexivity.
Qed.

Lemma painted_edges (page : Page) (c : Cube) (ls : list (nat * nat)) :
  forall path pen,
    painted path pen (flat_map (drawLine page c) ls) =
      map (edgeSegment page c) ls.
Proof.
  induction ls as [|line ls IH]; intros path pen; [reflexivity|].
  cbn [flat_map map].
  destruct (painted_drawLine page c line (flat_map (drawLine page c) ls)
              path pen) as (path' & pen' & E).
  rewrite E, IH; reflexivity.
Qed.

Lemma drawLine_strokes (page : Page) (c : Cube) (line : nat * nat) :
  drawLine page c line = strokeSegment (edgeSegment page c line).
Proof. destruct line as [lineX lineY]; reflexivity. Qed.

(** C3.  [draw] returns at once, making no call on the context, exactly
    when z < -FIELD_OF_VIEW + radius.  Otherwise it goes through the 12
    edges and, for each, projects the two corners (position plus radius
    times the local vertex) and strokes the line between them; where no
    projection divides by zero, what is painted is these 12 segments.
    With FIELD_OF_VIEW = 400 and radius 10, a cube at z = -500 is skipped
    and one at z = -100 is drawn. *)
Theorem draw_cull (page : Page) (c : Cube) :
  let culled := z c < - FIELD_OF_VIEW page + radius c in
  (draw page c = [] <-> culled)
  /\ (~ culled ->
      draw page c =
        flat_map (fun line => strokeSegment (edgeSegment page c line)) lines
      /\ length lines = 12%nat
      /\ (FIELD_OF_VIEW page + (z c - radius c) <> 0 ->
          FIELD_OF_VIEW page + (z c + radius c) <> 0 ->
          segments (draw page c) = map (edgeSegment page c) lines))
  /\ (forall w h cx cy,
        draw (mkPage 400 w h) (mkCube cx cy (-500) 10) = []
        /\ segments (draw (mkPage 400 w h) (mkCube cx cy (-100) 10)) =
             map (edgeSegment (mkPage 400 w h) (mkCube cx cy (-100) 10))
                 lines).
Proof.
  intros culled; subst culled.
  assert (drawn : forall p k,
             ~ z k < - FIELD_OF_VIEW p + radius k ->
             draw p k = flat_map (drawLine p k) lines).
  { intros p k H; unfold draw.
    destruct (Rlt_dec _ _) as [Hlt|_]; [contradiction|reflexivity]. }
  assert (skipped : forall p k,
             z k < - FIELD_OF_VIEW p + radius k -> draw p k = []).
  { intros p k H; unfold draw.
    destruct (Rlt_dec _ _) as [_|Hn]; [reflexivity|contradiction]. }
  split; [|split].
  - split; [|apply skipped].
    intros E; unfold draw in E.
    destruct (Rlt_dec _ _) as [Hlt|_]; [exact Hlt|discriminate E].
  - intros H; rewrite (drawn _ _ H).
    split; [|split].
    + apply flat_map_ext; intros line; apply drawLine_strokes.
    + reflexivity.
    + intros _ _; apply painted_edges.
  - intros w h cx cy; split.
    + apply skipped; simpl; lra.
    + rewrite drawn by (simpl; lra); apply painted_edges.
Qed.

(** ** The depth range of [perspective] *)

(** C4.  For fovy in (0, pi), aspect > 0 and 0 < near < far, the matrix
    [perspective fovy aspect near far] sends the camera-space point
    (0, 0, -near, 1) to depth -1 and (0, 0, -far, 1) to depth +1 after the
    division by w. *)
Theorem perspective_depth_range (fovy aspect near far : R) :
  0 < fovy < PI -> 0 < aspect -> 0 < near -> near < far ->
  depth (perspective fovy aspect near (Finite far)) (0, 0, - near, 1) = -1
  /\ depth (perspective fovy aspect near (Finite far)) (0, 0, - far, 1) = 1.
Proof.
  intros _ _ Hnear Hfar.
  unfold depth, transform, perspective; simpl.
  split; field; lra.
Qed.

Lemma perspective_depth_range_witness :
  depth (perspective 1 1 1 (Finite 2)) (0, 0, - 1, 1) = -1
  /\ depth (perspective 1 1 1 (Finite 2)) (0, 0, - 2, 1) = 1.
Proof.
  pose proof one_lt_PI as HPI.
  apply (perspective_depth_range 1 1 1 2); lra.
Defined.

(** C8.  For 0 < near <= 1, fovy in (0, pi) and aspect > 0, the depth of
    (0, 0, -100, 1) under [perspective] with far = 1e9 and its depth with
    far = Infinity differ by less than 1e-4. *)
Theorem perspective_far_converges (fovy aspect near : R) :
  0 < near <= 1 -> 0 < fovy < PI -> 0 < aspect ->
  Rabs (depth (perspective fovy aspect near (Finite 1e9)) (0, 0, -100, 1)
        - depth (perspective fovy aspect near Infinity) (0, 0, -100, 1))
  < 1e-4.
Proof.
  intros [Hpos Hle] _ _.
  unfold depth, transform, perspective; simpl.
  set (far := 1e9).
  assert (Hfar : far = 1000000000) by (unfold far; lra).
  replace (_ - _)
    with (near * (100 - near) / (50 * (far - near))) by (field; lra).
  assert (Hden : 0 < 50 * (far - near)) by lra.
  assert (Hnum : 0 <= near * (100 - near)) by nra.
  rewrite Rabs_right.
  - apply (Rmult_lt_reg_r (50 * (far - near))); [exact Hden|].
    unfold Rdiv; rewrite Rmult_assoc, Rinv_l by lra.
    nra.
  - apply Rle_ge. apply Rmult_le_pos; [exact Hnum|].
    left; apply Rinv_0_lt_compat; exact Hden.
Qed.

Lemma perspective_far_converges_witness :
  Rabs (depth (perspective 1 1 1 (Finite 1e9)) (0, 0, -100, 1)
        - depth (perspective 1 1 1 Infinity) (0, 0, -100, 1))
  < 1e-4.
Proof.
  pose proof one_lt_PI as HPI.
  apply (perspective_far_converges 1 1 1); lra.
Defined.

(** ** [translate] *)

(** Over exact arithmetic [translate m v] keeps the first 12 elements of
    [m]; its last 4 elements are the first three columns of [m] applied to
    [v] plus the last column of [m].  On the identity, elements 12, 13, 14
    are [v]. *)
Lemma translate_column_exact (m : Float32Array) (v : Vec3) :
  length m = 16%nat ->
  let '(x, y, z) := v in
  firstn 12 (translate m v) = firstn 12 m
  /\ skipn 12 (translate m v) =
       [ m.[0] * x + m.[4] * y + m.[8]  * z + m.[12];
         m.[1] * x + m.[5] * y + m.[9]  * z + m.[13];
         m.[2] * x + m.[6] * y + m.[10] * z + m.[14];
         m.[3] * x + m.[7] * y + m.[11] * z + m.[15] ]
  /\ length (translate m v) = 16%nat
  /\ ((translate create v).[12], (translate create v).[13],
      (translate create v).[14]) = v.
Proof.
  intros Hlen; destruct v as [[x y] z].
  elements m Hlen.
  split; [reflexivity|].
  split; [reflexivity|].
  split; [reflexivity|].
  unfold translate, create; simpl.
  componentwise; ring.
Qed.

(** C10.  Two translations in a row are the translation by the sum:
    [translate (translate m u) v = translate m (u + v)]. *)
Theorem translate_additive (m : Float32Array) (u v : Vec3) :
  length m = 16%nat ->
  let '(ux, uy, uz) := u in
  let '(vx, vy, vz) := v in
  translate (translate m u) v = translate m (ux + vx, uy + vy, uz + vz).
Proof.
  intros Hlen; destruct u as [[ux uy] uz], v as [[vx vy] vz].
  elements m Hlen.
  unfold translate; simpl.
  componentwise; ring.
Qed.

Lemma translate_additive_witness :
  translate (translate create (1, 2, 3)) (4, 5, 6)
  = translate create (1 + 4, 2 + 5, 3 + 6).
Proof.
  exact (translate_additive create (1, 2, 3) (4, 5, 6) eq_refl).
Defined.

(** ** [rotate] *)

Lemma squares_pos (x y z : R) :
  (x, y, z) <> (0, 0, 0) -> 0 < x * x + y * y + z * z.
Proof.
  intros Hne.
  destruct (Req_dec x 0) as [Hx|Hx];
    [destruct (Req_dec y 0) as [Hy|Hy];
       [destruct (Req_dec z 0) as [Hz|Hz]|]|].
  - exfalso; apply Hne; subst; reflexivity.
  - pose proof (Rle_0_sqr x); pose proof (Rle_0_sqr y).
    pose proof (Rsqr_pos_lt z Hz). unfold Rsqr in *. lra.
  - pose proof (Rle_0_sqr x); pose proof (Rle_0_sqr z).
    pose proof (Rsqr_pos_lt y Hy). unfold Rsqr in *. lra.
  - pose proof (Rle_0_sqr y); pose proof (Rle_0_sqr z).
    pose proof (Rsqr_pos_lt x Hx). unfold Rsqr in *. lra.
Qed.

Lemma normalize_unit (axis : Vec3) :
  axis <> (0, 0, 0) ->
  let n := normalize axis in
  coord n 0 * coord n 0 + coord n 1 * coord n 1 + coord n 2 * coord n 2 = 1.
Proof.
  destruct axis as [[x y] z]; intros Hne; simpl.
  pose proof (squares_pos x y z Hne) as Hpos.
  assert (Hs : sqrt (x * x + y * y + z * z) * sqrt (x * x + y * y + z * z)
               = x * x + y * y + z * z) by (apply sqrt_sqrt; lra).
  assert (Hl : 0 < sqrt (x * x + y * y + z * z))
    by (apply sqrt_lt_R0; exact Hpos).
  remember (sqrt (x * x + y * y + z * z)) as l eqn:El.
  replace (x / l * (x / l) + y / l * (y / l) + z / l * (z / l))
    with ((x * x + y * y + z * z) / (l * l)) by (field; lra).
  rewrite <- Hs; field; lra.
Qed.

(** C6.  For a non-zero axis, [rotate m angle axis] has the elements 12 to
    15 of [m], and its first three columns (elements 0 to 11) are the first
    three columns of [m] multiplied on the right by the Rodrigues rotation
    of the normalized axis: element (row i, column j) is the sum over k of
    m(i,k) * R(k,j).  This holds for the four rows, so for the upper-left
    3x3 block in particular. *)
Theorem rotate_composes (m : Float32Array) (angle : R) (axis : Vec3) :
  length m = 16%nat ->
  axis <> (0, 0, 0) ->
  let n := normalize axis in
  let r := rotate m angle axis in
  skipn 12 r = skipn 12 m
  /\ (forall i j : nat, (i < 4)%nat -> (j < 3)%nat ->
        r.[4 * j + i] =
          m.[i] * rodrigues n angle 0 j
          + m.[4 + i] * rodrigues n angle 1 j
          + m.[8 + i] * rodrigues n angle 2 j)
  /\ coord n 0 * coord n 0 + coord n 1 * coord n 1 + coord n 2 * coord n 2
     = 1
  /\ length r = 16%nat.
Proof.
  intros Hlen Hne n r.
  split; [|split; [|split]].
  - subst r; elements m Hlen; destruct axis as [[x y] z]; reflexivity.
  - intros i j Hi Hj; subst r n.
    elements m Hlen; destruct axis as [[x y] z].
    destruct i as [|[|[|[|i]]]]; [| | | |lia];
    (destruct j as [|[|[|j]]]; [| | |lia]);
    unfold rotate, rodrigues, crossMatrix, coord, normalize, Math_hypot;
    simpl; unfold Rdiv; ring.
  - apply normalize_unit; exact Hne.
  - subst r; destruct axis as [[x y] z]; reflexivity.
Qed.

Lemma rotate_composes_witness :
  skipn 12 (rotate create 0 (0, 0, 1)) = skipn 12 create.
Proof.
  apply (rotate_composes create 0 (0, 0, 1)).
  - reflexivity.
  - intros H; injection H as H; lra.
Defined.

Lemma hypot_z_axis : Math_hypot 0 0 1 = 1.
Proof.
  unfold Math_hypot.
  replace (0 * 0 + 0 * 0 + 1 * 1) with 1 by ring.
  apply sqrt_1.
Qed.

(** C7.  Translating the identity by (5,0,0) and then rotating by pi/2
    about (0,0,1) leaves the translation column (5,0,0); rotating first and
    then translating gives (0,5,0).  The two columns differ, so the two
    matrices differ: [rotate] and [translate] do not commute. *)
Theorem rotate_translate_order :
  let tr := rotate (translate create (5, 0, 0)) (PI / 2) (0, 0, 1) in
  let rt := translate (rotate create (PI / 2) (0, 0, 1)) (5, 0, 0) in
  (tr.[12], tr.[13], tr.[14]) = (5, 0, 0)
  /\ (rt.[12], rt.[13], rt.[14]) = (0, 5, 0)
  /\ (tr.[12], tr.[13], tr.[14]) <> (rt.[12], rt.[13], rt.[14])
  /\ tr <> rt.
Proof.
  intros tr rt.
  assert (Htr : (tr.[12], tr.[13], tr.[14]) = (5, 0, 0)).
  { subst tr; unfold rotate, translate, create; simpl.
    componentwise; ring. }
  assert (Hrt : (rt.[12], rt.[13], rt.[14]) = (0, 5, 0)).
  { subst rt; unfold rotate, translate, create.
    rewrite hypot_z_axis, cos_PI2, sin_PI2; simpl.
    componentwise; field. }
  assert (Hne : (tr.[12], tr.[13], tr.[14]) <> (rt.[12], rt.[13], rt.[14])).
  { rewrite Htr, Hrt; intros H; injection H as H _; lra. }
  repeat split; try assumption.
  intros E; apply Hne; rewrite E; reflexivity.
Qed.

(** * Properties in IEEE arithmetic *)

Module IEEEFacts.
Import IEEE.

Lemma mul_NaN_l (x : number) : mul NaN x = NaN.
Proof. reflexivity. Qed.

Lemma mul_NaN_r (x : number) : mul x NaN = NaN.
Proof. destruct x; reflexivity. Qed.

Lemma add_NaN_l (x : number) : add NaN x = NaN.
Proof. reflexivity. Qed.

Lemma add_NaN_r (x : number) : add x NaN = NaN.
Proof. destruct x; reflexivity. Qed.

Lemma sub_NaN_l (x : number) : sub NaN x = NaN.
Proof. reflexivity. Qed.

Lemma sub_NaN_r (x : number) : sub x NaN = NaN.
Proof. destruct x; reflexivity. Qed.

Lemma fround_NaN : fround NaN = NaN.
Proof. reflexivity. Qed.

(** [1 / +0] is [+Infinity], and a zero times it is NaN. *)
Lemma zero_over_zero_length (s : bool) :
  mul (zero s) (div (literal 1) (zero false)) = NaN.
Proof. reflexivity. Qed.

(** *** Exact steps of binary64 arithmetic *)

Lemma create_elements :
  create =
    [ one; zero false; zero false; zero false;
      zero false; one; zero false; zero false;
      zero false; zero false; one; zero false;
      zero false; zero false; zero false; one ].
Proof. reflexivity. Qed.

Lemma canonical_fexp (m : positive) (e : Z) :
  bounded 53 1024 m e = true ->
  (fexp 53 1024 (Zpos (digits2_pos m) + e) = e /\ e <= 971)%Z.
Proof.
  unfold bounded, canonical_mantissa; intros H.
  apply andb_prop in H; destruct H as [Hc He].
  apply Z.eqb_eq in Hc; apply Z.leb_le in He.
  split; [exact Hc | simpl in He; lia].
Qed.

Lemma shr_fexp_canonical (m : positive) (e : Z) :
  bounded 53 1024 m e = true ->
  shr_fexp 53 1024 (Zpos m) e loc_Exact =
    ({| shr_m := Zpos m; shr_r := false; shr_s := false |}, e).
Proof.
  intros H; destruct (canonical_fexp m e H) as [Hc _].
  unfold shr_fexp; cbn [Zdigits2 shr_record_of_loc].
  rewrite Hc, Z.sub_diag; reflexivity.
Qed.

(** [1 * x] is [x]: the product mantissa is [m] followed by 52 zero bits,
    and rounding shifts exactly those out. *)
Lemma mul_one_finite (s : bool) (m : positive) (e : Z) :
  bounded 53 1024 m e = true ->
  mul one (S754_finite s m e) = S754_finite s m e.
Proof.
  intros H; destruct (canonical_fexp m e H) as [Hc He].
  unfold mul, one, SFmul, binary_round_aux.
  assert (E1 : shr_fexp 53 1024 (Zpos (4503599627370496 * m)) (-52 + e)
                 loc_Exact
               = ({| shr_m := Zpos m; shr_r := false; shr_s := false |}, e)).
  { unfold shr_fexp.
    assert (Hd : (Zdigits2 (Zpos (4503599627370496 * m)) + (-52 + e)
                  = Zpos (digits2_pos m) + e)%Z).
    { cbn [Zdigits2 Pos.mul digits2_pos]; rewrite !Pos2Z.inj_succ; lia. }
    rewrite Hd, Hc.
    replace (e - (-52 + e))%Z with 52%Z by lia.
    unfold shr; apply f_equal2; [reflexivity | lia]. }
  rewrite E1; cbn [shr_m loc_of_shr_record round_nearest_even].
  rewrite (shr_fexp_canonical m e H); cbn [shr_m xorb].
  replace (e <=? 1024 - 53)%Z with true by (symmetry; apply Z.leb_le; lia).
  reflexivity.
Qed.

Lemma mul_one (x : number) :
  finiteDouble x = true -> mul one x = x.
Proof.
  destruct x as [s|s| |s m e]; try discriminate; intros H.
  - reflexivity.
  - apply mul_one_finite; exact H.
Qed.

Lemma mul_zero (x : number) :
  finiteDouble x = true -> exists s, mul (zero false) x = zero s.
Proof.
  destruct x as [s|s| |s m e]; try discriminate; intros _;
    exists s; reflexivity.
Qed.

(** A sum of a finite number, two zeros and [+0] is the number plus
    [+0], whichever place the number has among the first three terms. *)
Lemma add_zeros_1 (x : number) (s1 s2 : bool) :
  finiteDouble x = true ->
  add (add (add x (zero s1)) (zero s2)) (zero false) = add x (zero false).
Proof.
  destruct x as [s|s| |s m e]; try discriminate; intros _;
    [destruct s, s1, s2|]; reflexivity.
Qed.

Lemma add_zeros_2 (x : number) (s1 s2 : bool) :
  finiteDouble x = true ->
  add (add (add (zero s1) x) (zero s2)) (zero false) = add x (zero false).
Proof.
  destruct x as [s|s| |s m e]; try discriminate; intros _;
    [destruct s, s1, s2|]; reflexivity.
Qed.

Lemma add_zeros_3 (x : number) (s1 s2 : bool) :
  finiteDouble x = true ->
  add (add (add (zero s1) (zero s2)) x) (zero false) = add x (zero false).
Proof.
  destruct x as [s|s| |s m e]; try discriminate; intros _;
    [destruct s, s1, s2|destruct s1, s2]; reflexivity.
Qed.

Lemma strictEquals_refl (x : number) :
  isFinite x = true -> strictEquals x x = true.
Proof.
  destruct x as [s|s| |s m e]; try discriminate; intros _;
    [reflexivity|].
  unfold strictEquals, SFeqb, SFcompare.
  rewrite Z.compare_refl, Pos.compare_cont_refl.
  destruct s; reflexivity.
Qed.

(** In IEEE arithmetic the translation column of
    [translate create (x, y, z)] holds [fround (x + 0)], [fround (y + 0)]
    and [fround (z + 0)]. *)
Lemma translate_identity_rounds (x y z : number) :
  finiteDouble x = true -> finiteDouble y = true -> finiteDouble z = true ->
  let t := translate create (x, y, z) in
  get t 12 = fround (add x (zero false))
  /\ get t 13 = fround (add y (zero false))
  /\ get t 14 = fround (add z (zero false)).
Proof.
  intros Hx Hy Hz t; subst t.
  unfold translate; rewrite create_elements.
  unfold get, newFloat32Array; cbn [map nth].
  rewrite !mul_one by assumption.
  destruct (mul_zero x Hx) as [sx ->].
  destruct (mul_zero y Hy) as [sy ->].
  destruct (mul_zero z Hz) as [sz ->].
  rewrite add_zeros_1, add_zeros_2, add_zeros_3 by assumption.
  repeat split; reflexivity.
Qed.

Lemma map_fround_fixed (l : list number) :
  Forall (fun e => fround e = e) l -> map fround l = l.
Proof.
  induction 1 as [|e l He _ IH]; [reflexivity|].
  cbn [map]; rewrite He, IH; reflexivity.
Qed.

(** The elements [translate] copies are single-precision values already,
    so the store keeps them. *)
Lemma translate_keeps_columns (m : Float32Array) (v : Vec3) :
  length m = 16%nat ->
  Forall (fun e => fround e = e) m ->
  firstn 12 (translate m v) = firstn 12 m.
Proof.
  intros Hlen Hm; destruct v as [[x y] z].
  assert (Hfirst : Forall (fun e => fround e = e) (firstn 12 m)).
  { apply Forall_forall; intros e He.
    apply (proj1 (Forall_forall _ m) Hm).
    rewrite <- (firstn_skipn 12 m); apply in_or_app; left; exact He. }
  rewrite <- (map_fround_fixed _ Hfirst).
  elements m Hlen; reflexivity.
Qed.

(** [rotate] hands the last column of a [Float32Array] through as it is. *)
Lemma rotate_keeps_translation (M : MathLib) (m : Float32Array)
  (rad : number) (axis : Vec3) :
  length m = 16%nat ->
  Forall (fun e => fround e = e) m ->
  skipn 12 (rotate M m rad axis) = skipn 12 m.
Proof.
  intros Hlen Hm; destruct axis as [[x y] z].
  assert (Hlast : Forall (fun e => fround e = e) (skipn 12 m)).
  { apply Forall_forall; intros e He.
    apply (proj1 (Forall_forall _ m) Hm).
    rewrite <- (firstn_skipn 12 m); apply in_or_app; right; exact He. }
  rewrite <- (map_fround_fixed _ Hlast).
  elements m Hlen; reflexivity.
Qed.

Lemma fround_plus_zero (x : number) :
  finiteDouble x = true -> fround x = x ->
  strictEquals (fround (add x (zero false))) x = true.
Proof.
  destruct x as [s|s| |s m e]; try discriminate; intros H E.
  - destruct s; reflexivity.
  - change (add (S754_finite s m e) (zero false)) with (S754_finite s m e).
    rewrite E; apply strictEquals_refl; reflexivity.
Qed.

(** *** Degenerate inputs

    A quotient by a zero is never finite, and stays so in a typed array. *)
Lemma div_zero_not_finite (x : number) (s : bool) :
  isFinite (fround (div x (zero s))) = false.
Proof. destruct x; reflexivity. Qed.

Example fround_tenth :
  fround tenth = S754_finite false 7205759511166976 (-56)
  /\ fround (literal 5) = literal 5
  /\ fround (infinity true) = infinity true.
Proof. repeat split. Qed.

Example rotate_zero_axis_identity :
  rotate firstOrderMath create (literal 1) (zero false, zero false, zero true)
  = repeat NaN 12 ++ [zero false; zero false; zero false; one].
Proof. reflexivity. Qed.

Lemma firstOrderMath_hypot : hypotOfZeros firstOrderMath.
Proof. intros [|] [|] [|]; reflexivity. Qed.

Lemma firstOrderMath_tan : tanOfZero firstOrderMath.
Proof. intros s; reflexivity. Qed.

Lemma perspective_length (M : MathLib) (fovy aspect near : number)
  (far : option number) :
  length (perspective M fovy aspect near far) = 16%nat.
Proof.
  unfold perspective.
  destruct far as [far|]; [destruct (isInfinity far)|]; reflexivity.
Qed.

Lemma perspective_low_elements (M : MathLib) (fovy aspect near : number)
  (far : option number) (i : nat) :
  (i < 10)%nat ->
  get (perspective M fovy aspect near far) i =
    get (newFloat32Array
           [ div (div (literal 1) (Math_tan M (div fovy (literal 2)))) aspect;
             literal 0; literal 0; literal 0;
             literal 0; div (literal 1) (Math_tan M (div fovy (literal 2)));
             literal 0; literal 0;
             literal 0; literal 0 ]) i.
Proof.
  intros Hi; unfold perspective.
  do 10 (destruct i as [|i];
         [destruct far as [far|]; [destruct (isInfinity far)|]; reflexivity|]).
  lia.
Qed.

(** The IEEE reading of [perspective]: the same expressions as over exact
    arithmetic, evaluated in binary64 and stored in single precision.  The
    second branch is taken for [null] and for [+Infinity] only. *)
Lemma perspective_elements_rounded (M : MathLib)
  (fovy aspect near : number) (far : option number) :
  let f := div (literal 1) (Math_tan M (div fovy (literal 2))) in
  perspective M fovy aspect near far =
    match far with
    | Some far' =>
        if isInfinity far' then
          newFloat32Array
            [ div f aspect; literal 0; literal 0; literal 0;
              literal 0; f; literal 0; literal 0;
              literal 0; literal 0; neg (literal 1); neg (literal 1);
              literal 0; literal 0; mul (neg (literal 2)) near; literal 0 ]
        else
          let nf := div (literal 1) (sub near far') in
          newFloat32Array
            [ div f aspect; literal 0; literal 0; literal 0;
              literal 0; f; literal 0; literal 0;
              literal 0; literal 0; mul (add far' near) nf; neg (literal 1);
              literal 0; literal 0;
              mul (mul (mul (literal 2) far') near) nf; literal 0 ]
    | None =>
        newFloat32Array
          [ div f aspect; literal 0; literal 0; literal 0;
            literal 0; f; literal 0; literal 0;
            literal 0; literal 0; neg (literal 1); neg (literal 1);
            literal 0; literal 0; mul (neg (literal 2)) near; literal 0 ]
    end.
Proof.
  intros f; unfold perspective.
  destruct far as [far'|]; [destruct (isInfinity far')|]; reflexivity.
Qed.

(** [-Infinity] is not [Infinity]: it takes the first branch, where
    [(far + near) * nf] is [-Infinity * 0]. *)
Lemma perspective_negative_infinity (M : MathLib)
  (fovy aspect near : number) :
  finiteDouble near = true ->
  get (perspective M fovy aspect near (Some (infinity true))) 10 = NaN.
Proof.
  intros Hnear; rewrite perspective_elements_rounded.
  destruct near as [s|s| |s m e]; try discriminate; reflexivity.
Qed.

(** C9.  [rotate] with a zero axis returns a 16-element array for every
    matrix and every angle: its elements 0 to 11 are NaN and its elements
    12 to 15 are those of the input, so it contains non-finite entries.
    On the other invalid inputs the library returns an array as well: a
    zero field of view puts an infinity at element 5, a zero aspect puts a
    non-finite value at element 0, and a zero near plane (far unspecified)
    leaves the last column all zero.  Every call returns 16 elements. *)
Theorem degenerate_inputs_are_silent (M : MathLib) :
  hypotOfZeros M ->
  tanOfZero M ->
  (forall (m : Float32Array) (rad : number) (sx sy sz : bool),
     let r := rotate M m rad (zero sx, zero sy, zero sz) in
     length r = 16%nat
     /\ firstn 12 r = repeat NaN 12
     /\ skipn 12 r = map fround [get m 12; get m 13; get m 14; get m 15]
     /\ Exists (fun e => isFinite e = false) r)
  /\ (forall (s : bool) (aspect near : number) (far : option number),
        get (perspective M (zero s) aspect near far) 5 = infinity s)
  /\ (forall (fovy near : number) (s : bool) (far : option number),
        isFinite (get (perspective M fovy (zero s) near far) 0) = false)
  /\ (forall (fovy aspect : number) (s : bool),
        skipn 12 (perspective M fovy aspect (zero s) None) =
          [zero false; zero false; zero (negb s); zero false])
  /\ (forall (fovy aspect near : number) (far : option number),
        length (perspective M fovy aspect near far) = 16%nat)
  /\ (forall (m : Float32Array) (rad : number) (axis : Vec3),
        length (rotate M m rad axis) = 16%nat)
  /\ (forall (m : Float32Array) (v : Vec3),
        length (translate m v) = 16%nat).
Proof.
  intros Hhypot Htan.
  assert (Hrot : forall m rad sx sy sz,
             rotate M m rad (zero sx, zero sy, zero sz) =
               repeat NaN 12
               ++ map fround [get m 12; get m 13; get m 14; get m 15]).
  { intros m rad sx sy sz; unfold rotate, newFloat32Array.
    rewrite Hhypot; cbv zeta.
    rewrite !zero_over_zero_length.
    repeat (rewrite ?mul_NaN_l, ?mul_NaN_r; cbv beta;
            progress rewrite ?add_NaN_l, ?add_NaN_r, ?sub_NaN_l, ?sub_NaN_r).
    cbn [map repeat app]; rewrite !fround_NaN; reflexivity. }
  split; [|split; [|split; [|split; [|split; [|split]]]]].
  - intros m rad sx sy sz r; subst r; rewrite Hrot.
    split; [reflexivity|].
    split; [reflexivity|].
    split; [reflexivity|].
    apply Exists_cons_hd; reflexivity.
  - intros s aspect near far.
    rewrite perspective_low_elements by lia.
    unfold get, newFloat32Array; cbn [map nth].
    replace (div (zero s) (literal 2)) with (zero s)
      by (destruct s; reflexivity).
    rewrite Htan; destruct s; reflexivity.
  - intros fovy near s far.
    rewrite perspective_low_elements by lia.
    unfold get, newFloat32Array; cbn [map nth].
    apply div_zero_not_finite.
  - intros fovy aspect s; destruct s; reflexivity.
  - apply perspective_length.
  - intros m rad [[x y] z]; reflexivity.
  - intros m [[x y] z]; reflexivity.
Qed.

Lemma degenerate_inputs_are_silent_witness :
  firstn 12 (rotate firstOrderMath create (literal 1)
               (zero false, zero false, zero false))
  = repeat NaN 12.
Proof.
  destruct (degenerate_inputs_are_silent firstOrderMath
              firstOrderMath_hypot firstOrderMath_tan) as [Hrot _].
  destruct (Hrot create (literal 1) false false false) as (_ & H & _).
  exact H.
Defined.

End IEEEFacts.

(** ** The translation column of a translated identity *)

(** With [v = (0.1, 0, 0)] element 12 of [translate create v] is the single
    precision neighbour of 0.1, 13421773 * 2^-27, not 0.1. *)
Lemma translate_identity_not_exact :
  let v := (IEEE.tenth, IEEE.zero false, IEEE.zero false) in
  IEEE.finiteDouble IEEE.tenth = true
  /\ IEEE.get (IEEE.translate IEEE.create v) 12
     = S754_finite false 7205759511166976 (-56)
  /\ IEEE.strictEquals (IEEE.get (IEEE.translate IEEE.create v) 12)
       IEEE.tenth = false.
Proof. repeat split. Qed.

(** C5, amended.  Over exact arithmetic [translate m v] keeps the first 12
    elements of [m], its last 4 elements are the first three columns of [m]
    applied to [v] plus the last column of [m], and the translation column
    of [translate create v] is [v].  As the code computes it, the array
    keeps the first 12 elements of a [Float32Array] [m], and the
    translation column of [translate create v], for finite [v], holds the
    components of [v] rounded to single precision; they are equal to those
    of [v] when these are single-precision values. *)
Theorem translate_column :
  (forall (m : Float32Array) (v : Vec3),
     length m = 16%nat ->
     let '(x, y, z) := v in
     firstn 12 (translate m v) = firstn 12 m
     /\ skipn 12 (translate m v) =
          [ m.[0] * x + m.[4] * y + m.[8]  * z + m.[12];
            m.[1] * x + m.[5] * y + m.[9]  * z + m.[13];
            m.[2] * x + m.[6] * y + m.[10] * z + m.[14];
            m.[3] * x + m.[7] * y + m.[11] * z + m.[15] ]
     /\ ((translate create v).[12], (translate create v).[13],
         (translate create v).[14]) = v)
  /\ (forall (m : IEEE.Float32Array) (v : IEEE.Vec3),
        length m = 16%nat ->
        Forall (fun e => IEEE.fround e = e) m ->
        firstn 12 (IEEE.translate m v) = firstn 12 m)
  /\ (forall x y z : IEEE.number,
        IEEE.finiteDouble x = true ->
        IEEE.finiteDouble y = true ->
        IEEE.finiteDouble z = true ->
        let t := IEEE.translate IEEE.create (x, y, z) in
        let plus0 := fun a => IEEE.add a (IEEE.zero false) in
        (IEEE.get t 12, IEEE.get t 13, IEEE.get t 14)
        = (IEEE.fround (plus0 x), IEEE.fround (plus0 y),
           IEEE.fround (plus0 z))
        /\ (IEEE.fround x = x -> IEEE.strictEquals (IEEE.get t 12) x = true)
        /\ (IEEE.fround y = y -> IEEE.strictEquals (IEEE.get t 13) y = true)
        /\ (IEEE.fround z = z -> IEEE.strictEquals (IEEE.get t 14) z = true)).
Proof.
  split; [|split].
  - intros m [[x y] z] Hlen.
    pose proof (translate_column_exact m (x, y, z) Hlen) as H.
    cbv beta iota in H; tauto.
  - apply IEEEFacts.translate_keeps_columns.
  - intros x y z Hx Hy Hz t plus0.
    destruct (IEEEFacts.translate_identity_rounds x y z Hx Hy Hz)
      as (E12 & E13 & E14).
    fold t in E12, E13, E14; subst plus0; cbv beta.
    rewrite E12, E13, E14.
    split; [reflexivity|].
    repeat split; intros E; apply IEEEFacts.fround_plus_zero; assumption.
Qed.

Lemma translate_column_witness :
  ((translate create (5, 0, 0)).[12], (translate create (5, 0, 0)).[13],
   (translate create (5, 0, 0)).[14]) = (5, 0, 0)
  /\ IEEE.strictEquals
       (IEEE.get (IEEE.translate IEEE.create
                    (IEEE.literal 5, IEEE.zero false, IEEE.zero false)) 12)
       (IEEE.literal 5) = true.
Proof.
  destruct translate_column as (Hexact & _ & Hieee).
  split.
  - apply (Hexact create (5, 0, 0) eq_refl).
  - apply (Hieee (IEEE.literal 5) (IEEE.zero false) (IEEE.zero false));
      reflexivity.
Defined.

(** * Further properties of the library and of the scenes *)

(** ** src/lib/math.ts *)

(** X1.  [radToDeg] and [degToRad] are inverse to each other. *)
Theorem degrees_radians_round_trip (a : R) :
  radToDeg (degToRad a) = a /\ degToRad (radToDeg a) = a.
Proof.
  pose proof PI_RGT_0 as HPI.
  unfold radToDeg, degToRad; split; field; lra.
Qed.

(** ** [rotate]: angles *)

(** The normalized axis [rotate] works with, in the form the code computes
    it (a product with [1 / Math.hypot]), is a unit vector. *)
Lemma scaled_axis_unit (x y z : R) :
  (x, y, z) <> (0, 0, 0) ->
  let len := 1 / Math_hypot x y z in
  x * len * (x * len) + y * len * (y * len) + z * len * (z * len) = 1.
Proof.
  intros Hne len; subst len.
  pose proof (normalize_unit (x, y, z) Hne) as H; simpl in H.
  etransitivity; [|exact H].
  unfold Math_hypot, Rdiv; ring.
Qed.

(** X2.  A rotation by the angle 0 about a non-zero axis returns the
    matrix it was given. *)
Theorem rotate_zero_angle (m : Float32Array) (axis : Vec3) :
  length m = 16%nat ->
  axis <> (0, 0, 0) ->
  rotate m 0 axis = m.
Proof.
  intros Hlen _; destruct axis as [[x y] z].
  elements m Hlen.
  unfold rotate; rewrite sin_0, cos_0; simpl.
  componentwise; ring.
Qed.

Lemma rotate_zero_angle_witness :
  rotate create 0 (0, 0, 1) = create.
Proof.
  apply rotate_zero_angle.
  - reflexivity.
  - intros H; injection H as H; lra.
Defined.

(** X3.  Two rotations about the same non-zero axis are the rotation by
    the sum of the angles. *)
Theorem rotate_adds_angles (m : Float32Array) (alpha beta : R)
  (axis : Vec3) :
  length m = 16%nat ->
  axis <> (0, 0, 0) ->
  rotate (rotate m alpha axis) beta axis = rotate m (alpha + beta) axis.
Proof.
  intros Hlen Hne; destruct axis as [[x y] z].
  pose proof (scaled_axis_unit x y z Hne) as Hunit; cbv zeta in Hunit.
  elements m Hlen.
  unfold rotate; rewrite sin_plus, cos_plus; simpl.
  revert Hunit.
  generalize (x * (1 / Math_hypot x y z)) (y * (1 / Math_hypot x y z))
             (z * (1 / Math_hypot x y z)).
  intros X Y Z Hunit.
  generalize (sin alpha) (cos alpha) (sin beta) (cos beta).
  intros sa ca sb cb.
  componentwise; nsatz.
Qed.

Lemma rotate_adds_angles_witness :
  rotate (rotate create 1 (0, 0, 1)) 2 (0, 0, 1)
  = rotate create (1 + 2) (0, 0, 1).
Proof.
  apply rotate_adds_angles.
  - reflexivity.
  - intros H; injection H as H; lra.
Defined.

(** X4.  Rotating by an angle and then by its opposite about the same
    non-zero axis gives the matrix back. *)
Theorem rotate_inverse (m : Float32Array) (theta : R) (axis : Vec3) :
  length m = 16%nat ->
  axis <> (0, 0, 0) ->
  rotate (rotate m theta axis) (- theta) axis = m.
Proof.
  intros Hlen Hne; destruct axis as [[x y] z].
  pose proof (scaled_axis_unit x y z Hne) as Hunit; cbv zeta in Hunit.
  pose proof (sin2_cos2 theta) as Htrig; unfold Rsqr in Htrig.
  elements m Hlen.
  unfold rotate; rewrite sin_neg, cos_neg; simpl.
  revert Hunit.
  generalize (x * (1 / Math_hypot x y z)) (y * (1 / Math_hypot x y z))
             (z * (1 / Math_hypot x y z)).
  intros X Y Z Hunit.
  revert Htrig; generalize (sin theta) (cos theta); intros s c Htrig.
  componentwise; nsatz.
Qed.

Lemma rotate_inverse_witness :
  rotate (rotate create 1 (0, 0, 1)) (- 1) (0, 0, 1) = create.
Proof.
  apply rotate_inverse.
  - reflexivity.
  - intros H; injection H as H; lra.
Defined.

(** ** The matrices as transforms of points *)

Lemma transform_create (p : Vec4) : transform create p = p.
Proof.
  destruct p as [[[px py] pz] pw]; unfold transform, create; simpl.
  componentwise; ring.
Qed.

Lemma translate_point (m : Float32Array) (vx vy vz px py pz pw : R) :
  length m = 16%nat ->
  transform (translate m (vx, vy, vz)) (px, py, pz, pw)
  = transform m (px + vx * pw, py + vy * pw, pz + vz * pw, pw).
Proof.
  intros Hlen; elements m Hlen.
  unfold transform, translate; simpl.
  componentwise; ring.
Qed.

Lemma rotate_point (m : Float32Array) (angle : R) (axis : Vec3)
  (px py pz pw : R) :
  length m = 16%nat ->
  axis <> (0, 0, 0) ->
  exists qx qy qz : R,
    transform (rotate create angle axis) (px, py, pz, pw) = (qx, qy, qz, pw)
    /\ transform (rotate m angle axis) (px, py, pz, pw)
       = transform m (qx, qy, qz, pw)
    /\ qx * qx + qy * qy + qz * qz = px * px + py * py + pz * pz.
Proof.
  intros Hlen Hne; destruct axis as [[x y] z].
  pose proof (scaled_axis_unit x y z Hne) as Hunit; cbv zeta in Hunit.
  pose proof (sin2_cos2 angle) as Htrig; unfold Rsqr in Htrig.
  elements m Hlen.
  unfold transform, rotate, create; simpl.
  revert Hunit.
  generalize (x * (1 / Math_hypot x y z)) (y * (1 / Math_hypot x y z))
             (z * (1 / Math_hypot x y z)).
  intros X Y Z Hunit.
  revert Htrig; generalize (sin angle) (cos angle); intros s c Htrig.
  eexists; eexists; eexists; split; [|split].
  - apply (f_equal2 pair); [reflexivity|ring].
  - componentwise; ring.
  - nsatz.
Qed.

Lemma rotate_length (m : Float32Array) (angle : R) (axis : Vec3) :
  length (rotate m angle axis) = 16%nat.
Proof. destruct axis as [[x y] z]; reflexivity. Qed.

Lemma translate_length (m : Float32Array) (v : Vec3) :
  length (translate m v) = 16%nat.
Proof. destruct v as [[x y] z]; reflexivity. Qed.

(** X5.  The matrix [translate m v] sends a point where [m] sends the
    point moved by [v] (by [w] times [v] in homogeneous coordinates): the
    translation is applied before [m], in the frame of [m]. *)
Theorem translate_then_matrix (m : Float32Array) (v : Vec3) (p : Vec4) :
  length m = 16%nat ->
  let '(vx, vy, vz) := v in
  let '(px, py, pz, pw) := p in
  transform (translate m v) p
  = transform m (px + vx * pw, py + vy * pw, pz + vz * pw, pw).
Proof.
  intros Hlen; destruct v as [[vx vy] vz], p as [[[px py] pz] pw].
  elements m Hlen.
  unfold transform, translate; simpl.
  componentwise; ring.
Qed.

Lemma translate_then_matrix_witness :
  transform (translate create (1, 2, 3)) (4, 5, 6, 1)
  = transform create (4 + 1 * 1, 5 + 2 * 1, 6 + 3 * 1, 1).
Proof.
  exact (translate_then_matrix create (1, 2, 3) (4, 5, 6, 1) eq_refl).
Defined.

(** X6.  The matrix [rotate m angle axis] sends a point where [m] sends the
    point rotated by [rotate create angle axis], and that rotation keeps
    the length of the point and its [w]. *)
Theorem rotate_then_matrix (m : Float32Array) (angle : R) (axis : Vec3)
  (p : Vec4) :
  length m = 16%nat ->
  axis <> (0, 0, 0) ->
  let '(qx, qy, qz, qw) := transform (rotate create angle axis) p in
  let '(px, py, pz, pw) := p in
  transform (rotate m angle axis) p = transform m (qx, qy, qz, qw)
  /\ qx * qx + qy * qy + qz * qz = px * px + py * py + pz * pz
  /\ qw = pw.
Proof.
  intros Hlen Hne; destruct p as [[[px py] pz] pw].
  destruct (rotate_point m angle axis px py pz pw Hlen Hne)
    as (qx & qy & qz & E & Em & Hd).
  rewrite E; auto.
Qed.

Lemma rotate_then_matrix_witness :
  let '(qx, qy, qz, qw) := transform (rotate create 1 (0, 0, 1)) (1, 2, 3, 1) in
  qx * qx + qy * qy + qz * qz = 1 * 1 + 2 * 2 + 3 * 3.
Proof.
  pose proof (rotate_then_matrix create 1 (0, 0, 1) (1, 2, 3, 1) eq_refl)
    as H.
  destruct (transform (rotate create 1 (0, 0, 1)) (1, 2, 3, 1))
    as [[[qx qy] qz] qw].
  apply H.
  intros E; injection E as E; lra.
Defined.

(** ** [perspective]: the view volume *)

Lemma quotient_ge (a b l : R) : 0 < b -> l * b <= a -> l <= a / b.
Proof.
  intros Hb H; apply (Rmult_le_reg_r b); [exact Hb|].
  unfold Rdiv; rewrite Rmult_assoc, Rinv_l by lra; lra.
Qed.

Lemma quotient_le (a b u : R) : 0 < b -> a <= u * b -> a / b <= u.
Proof.
  intros Hb H; apply (Rmult_le_reg_r b); [exact Hb|].
  unfold Rdiv; rewrite Rmult_assoc, Rinv_l by lra; lra.
Qed.

Lemma quotient_lt (a b u : R) : 0 < b -> a < u * b -> a / b < u.
Proof.
  intros Hb H; apply (Rmult_lt_reg_r b); [exact Hb|].
  unfold Rdiv; rewrite Rmult_assoc, Rinv_l by lra; lra.
Qed.

Lemma depth_between_planes (fovy aspect near far x y d : R) :
  0 < near -> near < far -> near <= d -> d <= far ->
  -1 <= depth (perspective fovy aspect near (Finite far)) (x, y, - d, 1)
     <= 1.
Proof.
  intros Hnear Hfar Hd Hdfar.
  unfold depth, transform, perspective; simpl.
  replace ((0 * x + 0 * y + (far + near) * (1 / (near - far)) * - d
            + 2 * far * near * (1 / (near - far)) * 1)
           / (0 * x + 0 * y + -1 * - d + 0 * 1))
    with (((far + near) * d - 2 * far * near) / ((far - near) * d))
    by (field; lra).
  assert (Hden : 0 < (far - near) * d) by (apply Rmult_lt_0_compat; lra).
  split.
  - apply quotient_ge; [exact Hden|]. nra.
  - apply quotient_le; [exact Hden|]. nra.
Qed.

(** X7.  With 0 < near < far, a point whose distance in front of the
    camera is between near and far has its depth between -1 and 1,
    wherever it is sideways.  With far [Infinity], every point at distance
    near or more has its depth in [-1, 1). *)
Theorem perspective_depth_bounds (fovy aspect near far x y d : R) :
  0 < near -> near < far -> near <= d ->
  (d <= far ->
   -1 <= depth (perspective fovy aspect near (Finite far)) (x, y, - d, 1)
      <= 1)
  /\ -1 <= depth (perspective fovy aspect near Infinity) (x, y, - d, 1) < 1.
Proof.
  intros Hnear Hfar Hd.
  assert (Hdpos : 0 < d) by lra.
  split; [intros Hdfar; apply depth_between_planes; assumption|].
  unfold depth, transform, perspective; simpl.
  replace ((0 * x + 0 * y + -1 * - d + -2 * near * 1)
           / (0 * x + 0 * y + -1 * - d + 0 * 1))
    with ((d - 2 * near) / d) by (field; lra).
  split.
  - apply quotient_ge; [exact Hdpos|]. lra.
  - apply quotient_lt; [exact Hdpos|]. lra.
Qed.

Lemma perspective_depth_bounds_witness :
  -1 <= depth (perspective 1 1 1 Infinity) (0, 0, - 5, 1) < 1.
Proof.
  apply (perspective_depth_bounds 1 1 1 10 0 0 5); lra.
Defined.

(** X8.  With 0 < near < far the depth grows with the distance in front of
    the camera: of two points the nearer one has the smaller depth. *)
Theorem perspective_depth_monotone
  (fovy aspect near far x1 y1 x2 y2 d1 d2 : R) :
  0 < near -> near < far -> 0 < d1 -> d1 < d2 ->
  depth (perspective fovy aspect near (Finite far)) (x1, y1, - d1, 1)
  < depth (perspective fovy aspect near (Finite far)) (x2, y2, - d2, 1).
Proof.
  intros Hnear Hfar Hd1 Hd2.
  unfold depth, transform, perspective; simpl.
  apply Rlt_0_minus.
  match goal with
  | |- 0 < ?e =>
      replace e
        with (2 * far * near * (d2 - d1) / ((far - near) * (d1 * d2)))
        by (field; lra)
  end.
  apply Rdiv_lt_0_compat.
  - repeat apply Rmult_lt_0_compat; lra.
  - repeat apply Rmult_lt_0_compat; lra.
Qed.

Lemma perspective_depth_monotone_witness :
  depth (perspective 1 1 1 (Finite 10)) (0, 0, - 2, 1)
  < depth (perspective 1 1 1 (Finite 10)) (0, 0, - 3, 1).
Proof.
  apply (perspective_depth_monotone 1 1 1 10 0 0 0 0 2 3); lra.
Defined.

(** X9.  [fovy] is the full vertical opening angle and [aspect] the ratio
    of width to height: the point at distance d that is d * tan(fovy/2)
    above the axis and aspect times as far to the right lands on the
    corner (1, 1) of the normalized view. *)
Theorem perspective_field_of_view (fovy aspect near d : R)
  (far : FarBound) :
  0 < fovy < PI -> 0 < aspect -> 0 < d ->
  let '(nx, ny, _) :=
    ndc (perspective fovy aspect near far)
        (aspect * (d * tan (fovy / 2)), d * tan (fovy / 2), - d, 1) in
  nx = 1 /\ ny = 1.
Proof.
  intros [Hf0 Hf1] Haspect Hd.
  assert (Htan : 0 < tan (fovy / 2)) by (apply tan_gt_0; lra).
  destruct far as [| |far]; unfold ndc, transform, perspective; simpl;
    split; field; lra.
Qed.

Lemma perspective_field_of_view_witness :
  let '(nx, ny, _) :=
    ndc (perspective 1 2 1 Null)
        (2 * (3 * tan (1 / 2)), 3 * tan (1 / 2), - 3, 1) in
  nx = 1 /\ ny = 1.
Proof.
  pose proof one_lt_PI as HPI.
  apply (perspective_field_of_view 1 2 1 3 Null); lra.
Defined.

(** ** src/cubes.ts: the projection and the cull *)

(** X10.  With a positive FIELD_OF_VIEW, in front of the focal point
    (z > -FIELD_OF_VIEW) the projected size is positive and gets smaller as
    z grows; it is 1 at z = 0, and two points mirrored in the axis land
    mirrored in the centre of the canvas. *)
Theorem project_foreshortens (page : Page) (px1 py1 z1 z2 : R) :
  0 < FIELD_OF_VIEW page ->
  - FIELD_OF_VIEW page < z1 ->
  z1 < z2 ->
  0 < size (project page px1 py1 z2)
  /\ size (project page px1 py1 z2) < size (project page px1 py1 z1)
  /\ size (project page px1 py1 0) = 1
  /\ px (project page px1 py1 z1) + px (project page (- px1) (- py1) z1)
     = clientWidth page
  /\ py (project page px1 py1 z1) + py (project page (- px1) (- py1) z1)
     = clientHeight page.
Proof.
  intros HF Hz1 Hz2; unfold project; simpl.
  set (F := FIELD_OF_VIEW page) in *.
  assert (H1 : 0 < F + z1) by lra.
  assert (H2 : 0 < F + z2) by lra.
  split; [apply Rdiv_lt_0_compat; assumption|].
  split.
  - apply Rlt_0_minus.
    replace (F / (F + z1) - F / (F + z2))
      with (F * (z2 - z1) / ((F + z1) * (F + z2))) by (field; lra).
    apply Rdiv_lt_0_compat; apply Rmult_lt_0_compat; lra.
  - split; [field; lra|].
    split; field; lra.
Qed.

Lemma project_foreshortens_witness :
  size (project (mkPage 400 800 600) 1 1 10)
  < size (project (mkPage 400 800 600) 1 1 0).
Proof.
  apply (project_foreshortens (mkPage 400 800 600) 1 1 0 10); simpl; lra.
Defined.

(** X11.  What the cull is for: when [draw] draws a cube of non-negative
    radius, no corner it sends to [project] lies behind the focal point,
    that is, the divisor FIELD_OF_VIEW + z of [project] is not negative
    for any corner. *)
Theorem drawn_cube_in_front (page : Page) (c : Cube) (i : nat) :
  draw page c <> [] ->
  0 <= radius c ->
  (i < 8)%nat ->
  0 <= FIELD_OF_VIEW page + (z c + radius c * coord (vertex i) 2).
Proof.
  intros Hdrawn Hr Hi.
  assert (Hz : ~ z c < - FIELD_OF_VIEW page + radius c).
  { intros Hlt; apply Hdrawn; unfold draw.
    destruct (Rlt_dec _ _) as [_|Hn]; [reflexivity|contradiction]. }
  do 8 (destruct i as [|i]; [simpl; lra|]).
  lia.
Qed.

Lemma drawn_cube_in_front_witness :
  0 <= 400 + (-100 + 10 * coord (vertex 0) 2).
Proof.
  apply (drawn_cube_in_front (mkPage 400 800 600) (mkCube 0 0 (-100) 10) 0).
  - unfold draw; destruct (Rlt_dec _ _) as [Hlt|_]; [simpl in Hlt; lra|].
    discriminate.
  - simpl; lra.
  - lia.
Defined.

(** X12.  The cull test is strict: a cube exactly at
    z = -FIELD_OF_VIEW + radius is drawn, and for its corners with local
    z = -1 (the corners 0 to 3) the divisor of [project] is zero. *)
Theorem boundary_cube_divides_by_zero (page : Page) (c : Cube) (i : nat) :
  z c = - FIELD_OF_VIEW page + radius c ->
  (i < 4)%nat ->
  draw page c <> []
  /\ FIELD_OF_VIEW page + (z c + radius c * coord (vertex i) 2) = 0.
Proof.
  intros Hz Hi; split.
  - unfold draw; destruct (Rlt_dec _ _) as [Hlt|_]; [lra|discriminate].
  - do 4 (destruct i as [|i]; [simpl; lra|]).
    lia.
Qed.

Lemma boundary_cube_divides_by_zero_witness :
  draw (mkPage 400 800 600) (mkCube 0 0 (-390) 10) <> []
  /\ 400 + (-390 + 10 * coord (vertex 0) 2) = 0.
Proof.
  apply (boundary_cube_divides_by_zero (mkPage 400 800 600)
           (mkCube 0 0 (-390) 10) 0).
  - simpl; lra.
  - lia.
Defined.

(** ** src/cubes.ts: the constructor *)






(** ** src/cubes.ts: a frame *)





(** ** src/rotating-cube/script.js *)

Lemma last_cons (a d : R) (l : list R) : last (a :: l) d = last l a.
Proof.
  revert a d; induction l as [|b l IH]; intros a d; [reflexivity|].
  change (last (a :: b :: l) d) with (last (b :: l) d).
  rewrite (IH b d), (IH b a); reflexivity.
Qed.

(** X16.  The time keeping of [render]: after any sequence of frames
    [cubeRotation] equals [then], which is the last timestamp in seconds,
    and every frame is drawn with the rotation of the timestamp before its
    own (the first with rotation 0): the angle on screen lags one frame. *)
Theorem rotation_follows_clock (timestamps : list R) :
  let seconds := map (fun now => now * 0.001) timestamps in
  let '(frames, final) := renderFrames initialAnimation timestamps in
  cubeRotation final = then_ final
  /\ then_ final = last seconds 0
  /\ frames = map modelViewMatrix (removelast (0 :: seconds)).
Proof.
  assert (H : forall ts state,
             cubeRotation state = then_ state ->
             let '(frames, final) := renderFrames state ts in
             cubeRotation final = then_ final
             /\ then_ final
                = last (map (fun now => now * 0.001) ts) (then_ state)
             /\ frames
                = map modelViewMatrix
                    (removelast
                       (then_ state :: map (fun now => now * 0.001) ts))).
  { induction ts as [|now ts IH]; intros state Hinv.
    - simpl; auto.
    - cbn [renderFrames renderFrame].
      specialize (IH {| then_ := now * 0.001;
                        cubeRotation := cubeRotation state
                                        + (now * 0.001 - then_ state) |}).
      destruct (renderFrames _ ts) as [rest final].
      destruct IH as (I1 & I2 & I3); [simpl; rewrite Hinv; ring|].
      cbn [then_] in I2, I3.
      split; [exact I1|].
      split.
      + cbn [map]; rewrite last_cons; exact I2.
      + cbn [map]; rewrite I3, Hinv; reflexivity. }
  intros seconds; subst seconds.
  specialize (H timestamps initialAnimation).
  destruct (renderFrames initialAnimation timestamps) as [frames final].
  destruct H as (H1 & H2 & H3); [simpl; lra|].
  cbn [then_ initialAnimation] in H2, H3.
  repeat split; assumption.
Qed.

Lemma hypot_y_axis : Math_hypot 0 1 0 = 1.
Proof.
  unfold Math_hypot.
  replace (0 * 0 + 1 * 1 + 0 * 0) with 1 by ring.
  apply sqrt_1.
Qed.

Lemma modelView_point (rotation px py pz : R) :
  exists qx qy qz : R,
    transform (modelViewMatrix rotation) (px, py, pz, 1) = (qx, qy, qz, 1)
    /\ qx * qx + qy * qy + (qz + 6) * (qz + 6)
       = px * px + py * py + pz * pz.
Proof.
  assert (Hz : (0, 0, 1) <> (0, 0, 0)) by (intros H; injection H as H; lra).
  assert (Hy : (0, 1, 0) <> (0, 0, 0)) by (intros H; injection H as H; lra).
  unfold modelViewMatrix; cbv zeta.
  destruct (rotate_point
              (rotate (translate create (- 0.0, 0.0, -6.0)) rotation
                 (0, 0, 1))
              (rotation * 0.7) (0, 1, 0) px py pz 1
              (rotate_length _ _ _) Hy)
    as (ax & ay & az & _ & E2 & H2).
  destruct (rotate_point (translate create (- 0.0, 0.0, -6.0)) rotation
              (0, 0, 1) ax ay az 1 (translate_length _ _) Hz)
    as (bx & by' & bz & _ & E1 & H1).
  rewrite E2, E1, translate_point, transform_create by reflexivity.
  exists (bx + - 0.0 * 1), (by' + 0.0 * 1), (bz + -6.0 * 1).
  split; [reflexivity|].
  rewrite <- H2, <- H1.
  replace (-6.0) with (-6) by lra.
  replace 0.0 with 0 by lra.
  ring.
Qed.

(** X17.  Whatever the rotation, the model-view matrix of [drawScene] puts
    the centre of the object 6 in front of the camera and keeps every point
    at its distance from that centre; so a point within 2 of the centre,
    as the corners of the cube are, stays between 4 and 8 in front of the
    camera. *)
Theorem modelView_keeps_distance (rotation px py pz : R) :
  let '(qx, qy, qz, qw) :=
    transform (modelViewMatrix rotation) (px, py, pz, 1) in
  transform (modelViewMatrix rotation) (0, 0, 0, 1) = (0, 0, -6, 1)
  /\ qx * qx + qy * qy + (qz + 6) * (qz + 6) = px * px + py * py + pz * pz
  /\ qw = 1
  /\ (px * px + py * py + pz * pz <= 2 * 2 -> - 8 <= qz <= - 4).
Proof.
  destruct (modelView_point rotation px py pz) as (qx & qy & qz & E & Hd).
  destruct (modelView_point rotation 0 0 0) as (ox & oy & oz & E0 & H0).
  rewrite E, E0.
  pose proof (Rle_0_sqr ox) as Sx; pose proof (Rle_0_sqr oy) as Sy.
  pose proof (Rle_0_sqr (oz + 6)) as Sz; unfold Rsqr in Sx, Sy, Sz.
  assert (Hox : ox = 0)
    by (destruct (Rmult_integral ox ox) as [H|H]; [lra|exact H|exact H]).
  assert (Hoy : oy = 0)
    by (destruct (Rmult_integral oy oy) as [H|H]; [lra|exact H|exact H]).
  assert (Hoz : oz = -6)
    by (destruct (Rmult_integral (oz + 6) (oz + 6)) as [H|H]; lra).
  subst ox oy oz.
  split; [reflexivity|].
  split; [exact Hd|].
  split; [reflexivity|].
  intros Hp; split; nra.
Qed.

(** X18.  The scene end to end: under the projection of [drawScene] (45
    degrees, near 0.1, far 100) every point of the object within 2 of its
    centre has, at every rotation, its depth between -1 and 1: the
    spinning cube never crosses the near or the far plane. *)
Theorem spinning_cube_inside_depth_range (page : Page)
  (rotation px py pz : R) :
  px * px + py * py + pz * pz <= 2 * 2 ->
  -1 <= depth (projectionMatrix page)
              (transform (modelViewMatrix rotation) (px, py, pz, 1))
     <= 1.
Proof.
  intros Hp.
  destruct (modelView_point rotation px py pz) as (qx & qy & qz & E & Hd).
  rewrite E.
  replace qz with (- (- qz)) by ring.
  unfold projectionMatrix.
  apply depth_between_planes; nra.
Qed.

Lemma spinning_cube_inside_depth_range_witness :
  -1 <= depth (projectionMatrix (mkPage 640 800 600))
              (transform (modelViewMatrix 1) (1, 1, 1, 1))
     <= 1.
Proof.
  apply (spinning_cube_inside_depth_range (mkPage 640 800 600) 1 1 1 1).
  lra.
Defined.

(** ** Neutral elements *)

(** X19.  [create] is the identity transform, a translation by the zero
    vector changes nothing, and translating back by the opposite vector
    undoes a translation. *)
Theorem identity_and_translation_back (m : Float32Array) (v : Vec3)
  (p : Vec4) :
  length m = 16%nat ->
  let '(vx, vy, vz) := v in
  transform create p = p
  /\ translate m (0, 0, 0) = m
  /\ translate (translate m v) (- vx, - vy, - vz) = m.
Proof.
  intros Hlen; destruct v as [[vx vy] vz], p as [[[px py] pz] pw].
  elements m Hlen.
  unfold transform, translate, create; simpl.
  repeat split; componentwise; ring.
Qed.

Lemma identity_and_translation_back_witness :
  translate (translate create (1, 2, 3)) (- 1, - 2, - 3) = create.
Proof.
  apply (identity_and_translation_back create (1, 2, 3) (0, 0, 0, 1)
           eq_refl).
Defined.

(** ** src/lib/math.ts: [isPowerOf2] *)

Lemma ToInt32_small (n : Z) :
  (- 2 ^ 31 <= n < 2 ^ 31)%Z -> Int32.ToInt32 n = n.
Proof.
  intros H; unfold Int32.ToInt32.
  rewrite Z.mod_small by lia; lia.
Qed.

Lemma land_pred_even (q : positive) :
  (Z.land (Zpos q~0) (Zpos q~0 - 1) = 2 * Z.land (Zpos q) (Zpos q - 1))%Z.
Proof.
  replace (Zpos q~0) with (2 * Zpos q)%Z by reflexivity.
  replace (2 * Zpos q - 1)%Z with (2 * (Zpos q - 1) + 1)%Z by lia.
  apply Z.bits_inj'; intros k Hk.
  rewrite Z.land_spec.
  destruct (Z.eq_dec k 0) as [->|Hne].
  - rewrite Z.testbit_even_0, Z.testbit_even_0; reflexivity.
  - replace k with (Z.succ (k - 1)) by lia.
    rewrite Z.testbit_even_succ, Z.testbit_odd_succ, Z.testbit_even_succ
      by lia.
    rewrite Z.land_spec; reflexivity.
Qed.

Lemma land_pred_odd (q : positive) :
  (Z.land (Zpos q~1) (Zpos q~1 - 1) = Zpos q~0)%Z.
Proof.
  replace (Zpos q~1 - 1)%Z with (Zpos q~0) by lia.
  replace (Zpos q~1) with (2 * Zpos q + 1)%Z by reflexivity.
  replace (Zpos q~0) with (2 * Zpos q)%Z by reflexivity.
  apply Z.bits_inj'; intros k Hk.
  rewrite Z.land_spec.
  destruct (Z.eq_dec k 0) as [->|Hne].
  - rewrite Z.testbit_even_0; apply andb_false_r.
  - replace k with (Z.succ (k - 1)) by lia.
    rewrite Z.testbit_even_succ, Z.testbit_odd_succ by lia.
    apply andb_diag.
Qed.

(** Clearing the lowest set bit of a positive number leaves nothing exactly
    when the number is a power of two. *)
Lemma land_pred_power (p : positive) :
  (Z.land (Zpos p) (Zpos p - 1) = 0 <-> exists k, 0 <= k /\ Zpos p = 2 ^ k)%Z.
Proof.
  induction p as [q IH|q IH|].
  - rewrite land_pred_odd; split; [discriminate|].
    intros (k & Hk & E).
    destruct (Z.eq_dec k 0) as [->|Hne]; [simpl in E; lia|].
    replace k with (Z.succ (k - 1)) in E by lia.
    rewrite Z.pow_succ_r in E by lia; lia.
  - rewrite land_pred_even; split.
    + intros H.
      assert (H' : Z.land (Zpos q) (Zpos q - 1) = 0%Z) by lia.
      apply IH in H'; destruct H' as (k & Hk & E).
      exists (Z.succ k); split; [lia|].
      rewrite Z.pow_succ_r by lia; lia.
    + intros (k & Hk & E).
      destruct (Z.eq_dec k 0) as [->|Hne]; [simpl in E; lia|].
      replace k with (Z.succ (k - 1)) in E by lia.
      rewrite Z.pow_succ_r in E by lia.
      assert (H' : Z.land (Zpos q) (Zpos q - 1) = 0%Z)
        by (apply IH; exists (k - 1)%Z; split; lia).
      lia.
  - split; [|reflexivity].
    intros _; exists 0%Z; split; [lia|reflexivity].
Qed.

(** X20.  For a whole number n with 0 <= n < 2^31, [isPowerOf2 n] is true
    exactly when n is a power of two or n is 0: zero passes the test. *)
Theorem isPowerOf2_spec (n : Z) :
  (0 <= n < 2 ^ 31)%Z ->
  Int32.isPowerOf2 n = true
  <-> n = 0%Z \/ exists k : Z, (0 <= k)%Z /\ n = (2 ^ k)%Z.
Proof.
  intros Hn; unfold Int32.isPowerOf2.
  rewrite !ToInt32_small by lia.
  rewrite Z.eqb_eq.
  destruct n as [|p|p]; [|rewrite land_pred_power|lia].
  - split; [left; reflexivity|reflexivity].
  - split; [intros H; right; exact H|].
    intros [H|H]; [discriminate|exact H].
Qed.

Lemma isPowerOf2_spec_witness :
  Int32.isPowerOf2 256 = true
  <-> 256%Z = 0%Z \/ exists k : Z, (0 <= k)%Z /\ 256%Z = (2 ^ k)%Z.
Proof.
  apply (isPowerOf2_spec 256); lia.
Defined.

(** X21.  [isPowerOf2] sees the low 32 bits only: n and n + 2^32 get the
    same answer (both below 2^53, where the subtraction is exact), so
    above 2^32 numbers that are no powers of two pass, 3 * 2^32 among
    them. *)
Theorem isPowerOf2_wraps (n : Z) :
  (0 <= n)%Z -> (n + 2 ^ 32 < 2 ^ 53)%Z ->
  Int32.isPowerOf2 (n + 2 ^ 32) = Int32.isPowerOf2 n
  /\ Int32.isPowerOf2 (3 * 2 ^ 32) = true.
Proof.
  intros _ _; split; [|reflexivity].
  unfold Int32.isPowerOf2, Int32.ToInt32.
  replace (n + 2 ^ 32 + 2 ^ 31)%Z with (n + 2 ^ 31 + 1 * 2 ^ 32)%Z by lia.
  replace (n + 2 ^ 32 - 1 + 2 ^ 31)%Z
    with (n - 1 + 2 ^ 31 + 1 * 2 ^ 32)%Z by lia.
  rewrite !Z.mod_add by lia; reflexivity.
Qed.

Lemma isPowerOf2_wraps_witness :
  Int32.isPowerOf2 (6 + 2 ^ 32) = Int32.isPowerOf2 6.
Proof.
  apply (isPowerOf2_wraps 6); lia.
Defined.

(** ** [perspective] on an empty depth range, in IEEE arithmetic *)

Lemma sub_self (x : IEEE.number) :
  IEEE.isFinite x = true -> IEEE.sub x x = IEEE.zero false.
Proof.
  destruct x as [s|s| |s m e]; try discriminate; intros _.
  - destruct s; reflexivity.
  - unfold IEEE.sub, SFsub; rewrite Z.sub_diag; reflexivity.
Qed.

Lemma times_infinity_not_finite (x : IEEE.number) (s : bool) :
  IEEE.isFinite (IEEE.fround (IEEE.mul x (IEEE.infinity s))) = false.
Proof. destruct x; reflexivity. Qed.

(** X22.  With far equal to a finite near, [perspective] divides by the
    zero range and returns, without an error, 16 elements of which 10 and
    14 are not finite. *)
Theorem perspective_empty_range (M : IEEE.MathLib)
  (fovy aspect near : IEEE.number) :
  IEEE.isFinite near = true ->
  let m := IEEE.perspective M fovy aspect near (Some near) in
  length m = 16%nat
  /\ IEEE.isFinite (IEEE.get m 10) = false
  /\ IEEE.isFinite (IEEE.get m 14) = false.
Proof.
  intros Hnear m; subst m.
  rewrite IEEEFacts.perspective_elements_rounded.
  replace (IEEE.isInfinity near) with false
    by (destruct near as [s|s| |s k e]; try discriminate; reflexivity).
  cbv zeta; rewrite (sub_self near Hnear).
  split; [reflexivity|].
  unfold IEEE.get, IEEE.newFloat32Array; cbn [map nth].
  change (IEEE.div (IEEE.literal 1) (IEEE.zero false))
    with (IEEE.infinity false).
  split; apply times_infinity_not_finite.
Qed.

Lemma perspective_empty_range_witness :
  IEEE.isFinite
    (IEEE.get (IEEE.perspective IEEE.firstOrderMath IEEE.one IEEE.one
                 IEEE.one (Some IEEE.one)) 10) = false.
Proof.
  apply (perspective_empty_range IEEE.firstOrderMath IEEE.one IEEE.one
           IEEE.one eq_refl).
Defined.

(** ** [translate] by an infinite offset, in IEEE arithmetic *)

(** X23.  A translation of the identity by a vector whose first component
    is infinite returns, without an error, a matrix whose elements 13, 14
    and 15 are NaN: the zero entries of the matrix times the infinity
    spoil the other coordinates of the column. *)
Theorem translate_infinite_offset (s : bool) (y z : IEEE.number) :
  let t := IEEE.translate IEEE.create (IEEE.infinity s, y, z) in
  length t = 16%nat
  /\ IEEE.get t 13 = IEEE.NaN
  /\ IEEE.get t 14 = IEEE.NaN
  /\ IEEE.get t 15 = IEEE.NaN.
Proof.
  intros t; subst t.
  unfold IEEE.translate; rewrite IEEEFacts.create_elements.
  unfold IEEE.get, IEEE.newFloat32Array; cbn [map nth length].
  change (IEEE.mul (IEEE.zero false) (IEEE.infinity s)) with IEEE.NaN.
  rewrite !IEEEFacts.add_NaN_l.
  repeat split; reflexivity.
Qed.

(** ** [rotate]: the axis *)

Lemma hypot_scaled (k x y z : R) :
  0 <= k -> Math_hypot (k * x) (k * y) (k * z) = k * Math_hypot x y z.
Proof.
  intros Hk; unfold Math_hypot.
  replace (k * x * (k * x) + k * y * (k * y) + k * z * (k * z))
    with (k * k * (x * x + y * y + z * z)) by ring.
  rewrite sqrt_mult_alt by nra.
  rewrite sqrt_square by exact Hk; reflexivity.
Qed.

(** X24.  Only the direction of the axis counts: for a non-zero axis and
    k > 0, rotating about k times the axis is rotating about the axis, and
    rotating about the opposite axis is rotating by the opposite angle. *)
Theorem rotate_axis_direction (m : Float32Array) (angle k : R)
  (axis : Vec3) :
  axis <> (0, 0, 0) ->
  0 < k ->
  let '(x, y, z) := axis in
  rotate m angle (k * x, k * y, k * z) = rotate m angle axis
  /\ rotate m angle (- x, - y, - z) = rotate m (- angle) axis.
Proof.
  intros Hne Hk; destruct axis as [[x y] z].
  pose proof (squares_pos x y z Hne) as Hpos.
  assert (Hl : 0 < Math_hypot x y z)
    by (unfold Math_hypot; apply sqrt_lt_R0; exact Hpos).
  assert (Hopp : Math_hypot (- x) (- y) (- z) = Math_hypot x y z).
  { unfold Math_hypot; f_equal; ring. }
  split.
  - unfold rotate; rewrite hypot_scaled by lra.
    replace (k * x * (1 / (k * Math_hypot x y z)))
      with (x * (1 / Math_hypot x y z)) by (field; lra).
    replace (k * y * (1 / (k * Math_hypot x y z)))
      with (y * (1 / Math_hypot x y z)) by (field; lra).
    replace (k * z * (1 / (k * Math_hypot x y z)))
      with (z * (1 / Math_hypot x y z)) by (field; lra).
    reflexivity.
  - unfold rotate; rewrite Hopp, sin_neg, cos_neg.
    componentwise; ring.
Qed.

Lemma rotate_axis_direction_witness :
  rotate create 1 (2 * 0, 2 * 0, 2 * 1) = rotate create 1 (0, 0, 1).
Proof.
  apply (rotate_axis_direction create 1 2 (0, 0, 1)).
  - intros H; injection H as H; lra.
  - lra.
Defined.

(** ** src/cubes.ts: the edge table *)

(** X25.  Every entry of [lines] names two of the 8 corners, and the two
    differ by 2 in one coordinate and agree in the others: each stroke is
    an edge of the cube, not a diagonal, and in the world its ends are
    2 * radius apart. *)
Theorem lines_are_edges (c : Cube) (line : nat * nat) :
  In line lines ->
  let '(a, b) := line in
  let dx := coord (vertex a) 0 - coord (vertex b) 0 in
  let dy := coord (vertex a) 1 - coord (vertex b) 1 in
  let dz := coord (vertex a) 2 - coord (vertex b) 2 in
  (a < 8)%nat /\ (b < 8)%nat
  /\ dx * dx + dy * dy + dz * dz = 2 * 2
  /\ (dx * dy = 0 /\ dy * dz = 0 /\ dx * dz = 0)
  /\ (radius c * dx) * (radius c * dx) + (radius c * dy) * (radius c * dy)
     + (radius c * dz) * (radius c * dz)
     = (2 * radius c) * (2 * radius c).
Proof.
  intros Hin; unfold lines in Hin; simpl in Hin.
  repeat (destruct Hin as [<-|Hin];
          [simpl; repeat split; try lia; ring|]).
  contradiction.
Qed.

Lemma lines_are_edges_witness :
  let dx := coord (vertex 0) 0 - coord (vertex 1) 0 in
  let dy := coord (vertex 0) 1 - coord (vertex 1) 1 in
  let dz := coord (vertex 0) 2 - coord (vertex 1) 2 in
  dx * dx + dy * dy + dz * dz = 2 * 2.
Proof.
  apply (lines_are_edges (mkCube 0 0 0 10) (0, 1)%nat).
  left; reflexivity.
Defined.
